(** * Type checking of call and selector expressions

    A shallow embedding of [go/types/call.go]: the three checker methods
    [call], [argument] and [selector], over the operand, type and object
    representations they manipulate.  The checker is a Go struct mutated in
    place; here its state is threaded explicitly through a small state monad
    that can also stop with a run-time panic (failed type assertion, index
    out of range, [unreachable()]). *)

From Stdlib Require Import ZArith List String Bool Lia.
Import ListNotations.
Local Open Scope Z_scope.
Local Open Scope list_scope.
Set Warnings "-register-all".

(* ===================================================================== *)
(** ** Source positions and syntax trees (packages go/token and go/ast)   *)
(* ===================================================================== *)

Module token.
(** [token.Pos] is a Go [int]; [NoPos] is its zero value. *)
Definition Pos := Z.
Definition NoPos : Pos := 0.
Definition IsValid (p : Pos) : bool := negb (p =? NoPos).
End token.

Module ast.
(** The expression forms [call.go] distinguishes.  Every other form is an
    [Other] node: it is only ever handed to the expression evaluator. *)
Inductive Expr : Type :=
| Ident (NamePos : token.Pos) (Name : string)
| CallExpr (Fun : Expr) (Args : list Expr) (Ellipsis : token.Pos)
| SelectorExpr (X : Expr) (Sel : Expr)
| Other (From : token.Pos) (tag : Z).

(** [Expr.Pos()]: position of the first character of the node. *)
Fixpoint Pos (e : Expr) : token.Pos :=
  match e with
  | Ident p _ => p
  | CallExpr f _ _ => Pos f
  | SelectorExpr x _ => Pos x
  | Other p _ => p
  end.

(** [e.Sel.Name]; [Sel] is always an identifier in a parsed tree. *)
Definition Name (id : Expr) : string :=
  match id with
  | Ident _ n => n
  | _ => EmptyString
  end.
End ast.

(* ===================================================================== *)
(** ** Types, variables, objects and scopes                               *)
(* ===================================================================== *)

(** A [*Package] owning a variable is identified by its path. *)
Definition PkgId := string.

(** [Type] with the representations [call.go] inspects.  A nil [*Tuple]
    (an empty parameter or result list) is the empty list of variables:
    [Len()] is 0 on both. *)
Inductive Type_ : Type :=
| Basic (name : string)
| Named (name : string) (underlying : Type_)
| Pointer (base : Type_)
| Slice (elt : Type_)
| Tuple (vars : list Var)
| SignatureT (sig : Signature)
| Builtin (id : Z)
with Signature : Type :=
| mkSignature (recv : option Var) (params results : list Var) (isVariadic : bool)
with Var : Type :=
| NewVar (pos : token.Pos) (pkg : PkgId) (name : string) (typ : Type_).

Definition recv (s : Signature) : option Var :=
  match s with mkSignature r _ _ _ => r end.
Definition params (s : Signature) : list Var :=
  match s with mkSignature _ p _ _ => p end.
Definition results (s : Signature) : list Var :=
  match s with mkSignature _ _ r _ => r end.
Definition isVariadic (s : Signature) : bool :=
  match s with mkSignature _ _ _ v => v end.

(** [v.typ] for a [*Var]. *)
Definition Var_typ (v : Var) : Type_ :=
  match v with NewVar _ _ _ t => t end.

(** Modelled from the spec: [Tuple.Len] is not part of the file; a tuple is
    an ordered sequence of variables and [Len] counts them. *)
Definition Len (vars : list Var) : Z := Z.of_nat (List.length vars).

(** Go slice indexing [vars[i]]: [None] stands for the index-out-of-range
    panic. *)
Definition index {A : Type} (l : list A) (i : Z) : option A :=
  if i <? 0 then None else nth_error l (Z.to_nat i).

(** Modelled from the spec: [Type.Underlying] is not part of the file; a
    named type stands for its underlying representation, every other type
    is its own. *)
Definition Underlying (t : Type_) : Type_ :=
  match t with
  | Named _ u => u
  | _ => t
  end.

(** Constant values ([exact.Value]); [None] is the nil value. *)
Definition Value := option Z.

(** [Object]: the closed set of named bindings, and the scopes holding
    them. *)
Inductive Object : Type :=
| Const (name : string) (typ : Type_) (val : Value)
| TypeName (name : string) (typ : Type_)
| VarObj (v : Var)
| Func (name : string) (typ : Type_)
| Package (name : string) (scope : Scope)
with Scope : Type :=
| NewScope (parent : option Scope) (entries : list Object).

Definition Object_Name (o : Object) : string :=
  match o with
  | Const n _ _ => n
  | TypeName n _ => n
  | VarObj (NewVar _ _ n _) => n
  | Func n _ => n
  | Package n _ => n
  end.

(** Modelled from the spec: [Scope.Lookup] is not part of the file; the
    member table of a scope is searched for the binding of that name. *)
Definition Lookup (s : Scope) (name : string) : option Object :=
  match s with
  | NewScope _ entries =>
      find (fun o => String.eqb (Object_Name o) name) entries
  end.

(** Modelled from the spec: [Scope.LookupParent] is not part of the file;
    the name is resolved in the scope or, failing that, in the enclosing
    scopes, innermost first. *)
Fixpoint LookupParent (s : Scope) (name : string) : option Object :=
  match s with
  | NewScope parent entries =>
      match find (fun o => String.eqb (Object_Name o) name) entries with
      | Some o => Some o
      | None =>
          match parent with
          | Some p => LookupParent p name
          | None => None
          end
      end
  end.

(* ===================================================================== *)
(** ** Operands                                                           *)
(* ===================================================================== *)

Inductive operandMode : Type :=
| invalid | novalue | constant | variable | typexpr | value.

Definition mode_eqb (a b : operandMode) : bool :=
  match a, b with
  | invalid, invalid | novalue, novalue | constant, constant
  | variable, variable | typexpr, typexpr | value, value => true
  | _, _ => false
  end.

(** The operand a check works on; Go passes it by pointer and the checks
    overwrite its fields, here every check returns the new operand. *)
Record operand : Type := mkOperand {
  mode : operandMode;
  expr : option ast.Expr;
  typ : Type_;
  val : Value
}.

Definition set_mode (x : operand) (m : operandMode) : operand :=
  {| mode := m; expr := expr x; typ := typ x; val := val x |}.
Definition set_expr (x : operand) (e : ast.Expr) : operand :=
  {| mode := mode x; expr := Some e; typ := typ x; val := val x |}.
Definition set_typ (x : operand) (t : Type_) : operand :=
  {| mode := mode x; expr := expr x; typ := t; val := val x |}.
Definition set_val (x : operand) (v : Value) : operand :=
  {| mode := mode x; expr := expr x; typ := typ x; val := v |}.

(** Modelled from the spec: [operand.pos] is not part of the file; it is
    the position of the operand's source expression, if it has one. *)
Definition pos (x : operand) : token.Pos :=
  match expr x with
  | Some e => ast.Pos e
  | None => token.NoPos
  end.

(* ===================================================================== *)
(** ** Diagnostics and checker state                                      *)
(* ===================================================================== *)

(** One constructor per message of the file, under the name the
    specification gives it. *)
Inductive ErrorKind : Type :=
| NotCallable | SpreadOnNonVariadic | TooFewArguments | TooManyArguments
| SpreadPositionMismatch | SpreadTypeMismatch | ArgumentTypeMismatch
| UndeclaredPackageMember | UnexportedPackageMember
| NoSuchMember | AmbiguousSelector | NoSuchMethod | NotInMethodSet.

(** The format string each kind is reported with. *)
Definition format (k : ErrorKind) : string :=
  match k with
  | NotCallable => "cannot call non-function %s"
  | SpreadOnNonVariadic => "cannot use ... in call to non-variadic %s"
  | TooFewArguments => "too few arguments in call to %s"
  | TooManyArguments => "too many arguments"
  | SpreadPositionMismatch => "can only use ... with matching parameter"
  | SpreadTypeMismatch => "cannot use %s as parameter of type %s"
  | ArgumentTypeMismatch => "cannot pass argument %s to parameter of type %s"
  | UndeclaredPackageMember => "%s not declared by package %s"
  | UnexportedPackageMember => "%s not exported by package %s"
  | NoSuchMember => "%s has no field or method %s"
  | AmbiguousSelector => "ambiguous selector %s"
  | NoSuchMethod => "%s has no method %s"
  | NotInMethodSet => "%s is not in method set of %s"
  end%string.

(** What a message is formatted with. *)
Inductive Arg : Type :=
| AExpr (e : ast.Expr)
| AString (s : string)
| AOperand (x : operand)
| AType (t : Type_).

Record Diag : Type := mkDiag {
  d_pos : token.Pos;
  d_invalidOp : bool;      (* reported through [invalidOp] rather than [errorf] *)
  d_kind : ErrorKind;
  d_args : list Arg
}.

(** The fields of [checker] the file reads or writes. *)
Record checker : Type := mkChecker {
  pkg : PkgId;                               (* check.pkg *)
  topScope : Scope;                          (* check.topScope *)
  Objects : list (ast.Expr * Object);        (* identifier -> object, as recorded *)
  errors : list Diag                         (* diagnostics, oldest first *)
}.

(* ===================================================================== *)
(** ** The checker monad: state, and a panic that stops everything        *)
(* ===================================================================== *)

Inductive outcome (A : Type) : Type :=
| Done (a : A) (c : checker)
| Panic (msg : string).
Arguments Done {A} a c.
Arguments Panic {A} msg.

Definition M (A : Type) : Type := checker -> outcome A.

Definition ret {A : Type} (a : A) : M A := fun c => Done a c.

Definition bind {A B : Type} (m : M A) (k : A -> M B) : M B :=
  fun c =>
    match m c with
    | Done a c' => k a c'
    | Panic msg => Panic msg
    end.

Definition panic {A : Type} (msg : string) : M A := fun _ => Panic msg.

(** A collaborator that always returns. *)
Definition lift {A : Type} (f : checker -> A * checker) : M A :=
  fun c => let (a, c') := f c in Done a c'.

Definition get_checker : M checker := fun c => Done c c.

Declare Scope checker_scope.
Delimit Scope checker_scope with checker.
Notation "x <- m ;; k" := (bind m (fun x => k))
  (at level 100, m at next level, right associativity) : checker_scope.
Notation "m ;;; k" := (bind m (fun _ => k))
  (at level 100, right associativity) : checker_scope.
Local Open Scope checker_scope.

(** Modelled from the spec: the diagnostic sink is not part of the file;
    every report is appended to it and checking goes on. *)
Definition report (d : Diag) : M unit :=
  fun c => Done tt {| pkg := pkg c; topScope := topScope c;
                      Objects := Objects c; errors := errors c ++ [d] |}.

(** [check.errorf(pos, format, args...)] *)
Definition errorf (p : token.Pos) (k : ErrorKind) (args : list Arg) : M unit :=
  report {| d_pos := p; d_invalidOp := false; d_kind := k; d_args := args |}.

(** [check.invalidOp(pos, format, args...)] *)
Definition invalidOp (p : token.Pos) (k : ErrorKind) (args : list Arg) : M unit :=
  report {| d_pos := p; d_invalidOp := true; d_kind := k; d_args := args |}.

(** Modelled from the spec: the binding recorder is not part of the file;
    it is an append-only sink of (identifier, object) pairs. *)
Definition recordObject (id : ast.Expr) (obj : Object) : M unit :=
  fun c => Done tt {| pkg := pkg c; topScope := topScope c;
                      Objects := Objects c ++ [(id, obj)]; errors := errors c |}.

(* ===================================================================== *)
(** ** Collaborators                                                      *)
(* ===================================================================== *)

(** What [call.go] calls but does not define.  The checker methods get the
    operand and the checker and hand both back; they always return. *)
Class Collaborators : Type := {
  (** [check.exprOrType(x, e)] *)
  check_exprOrType : operand -> ast.Expr -> checker -> operand * checker;
  (** [check.expr(x, e)] *)
  check_expr : operand -> ast.Expr -> checker -> operand * checker;
  (** [check.conversion(x, e, typ)] *)
  check_conversion : operand -> ast.Expr -> Type_ -> checker -> operand * checker;
  (** [check.builtin(x, e, bin)] *)
  check_builtin : operand -> ast.Expr -> Z -> checker -> operand * checker;
  (** [check.assignment(x, typ)]: the verdict and the operand as it leaves it *)
  check_assignment : operand -> Type_ -> checker -> (bool * operand) * checker;
  (** [LookupFieldOrMethod(typ, pkg, name)]: object, index path (nil or
      not), indirect *)
  LookupFieldOrMethod : Type_ -> PkgId -> string ->
                        option Object * option (list Z) * bool;
  (** [lookupResult(typ, obj, index, indirect)] *)
  lookupResult : Type_ -> Object -> option (list Z) -> bool -> Object;
  (** [ptrRecv(f)]: the method has a pointer receiver *)
  ptrRecv : Object -> bool;
  (** [obj.IsExported()], a property of the object's name *)
  IsExported : string -> bool;
  (** the package constant [debug] *)
  debug : bool;
  (** the cross-check of the debug build: [typ.MethodSet().Lookup(pkg, sel)]
      finds a method and it is [obj] *)
  methodSetAgrees : Type_ -> PkgId -> string -> Object -> bool
}.

(* ===================================================================== *)
(** ** The checker methods of call.go                                     *)
(* ===================================================================== *)

Section Checker.
Context {K : Collaborators}.

(** Lines 153-155: the assignment of [x] to the parameter type [T]. *)
Definition assign (x : operand) (T : Type_) : M operand :=
  r <- lift (check_assignment x T) ;;
  let '(ok, x) := r in
  if negb ok && negb (mode_eqb (mode x) invalid)
  then errorf (pos x) ArgumentTypeMismatch [AOperand x; AType T] ;;; ret x
  else ret x.

(** [func (check *checker) argument(sig, i, x, passSlice)], lines 118-156.
    The [debug] block of lines 128-132 only prints. *)
Definition argument (sig : Signature) (i : Z) (x : operand) (passSlice : bool)
  : M operand :=
  let n := Len (params sig) in
  (* lines 138-151 *)
  let passing (T : Type_) : M operand :=
    if passSlice then
      if negb (i =? n - 1)
      then errorf (pos x) SpreadPositionMismatch [] ;;; ret x
      else match typ x with
           | Slice _ => assign x T
           | _ => errorf (pos x) SpreadTypeMismatch [AOperand x; AType T] ;;; ret x
           end
    else if isVariadic sig && (i >=? n - 1) then
      match T with
      | Slice elt => assign x elt
      | _ => panic "interface conversion: Type is not *Slice"
      end
    else assign x T in
  (* lines 121-136: determine parameter type *)
  if i <? n then
    match index (params sig) i with
    | Some v => passing (Var_typ v)
    | None => panic "index out of range"
    end
  else if isVariadic sig then
    match index (params sig) (n - 1) with
    | Some v => passing (Var_typ v)
    | None => panic "index out of range"
    end
  else errorf (pos x) TooManyArguments [] ;;; ret x.

(** Lines 57-62: [for i := 0; i < n; i++] over the components of the
    tuple [t]; [k] counts the iterations left. *)
Fixpoint forComponents (sig : Signature) (passSlice : bool) (arg : ast.Expr)
    (t : list Var) (n : Z) (k : nat) (i : Z) (x : operand) : M operand :=
  match k with
  | O => ret x
  | S k' =>
      match index t i with
      | Some v =>
          let x := set_typ (set_expr (set_mode x value) arg) (Var_typ v) in
          x <- argument sig i x (passSlice && (i =? n - 1)) ;;
          forComponents sig passSlice arg t n k' (i + 1) x
      | None => panic "index out of range"
      end
  end.

(** Lines 72-77: [for i, arg := range e.Args]. *)
Fixpoint rangeArgs (sig : Signature) (passSlice : bool) (n : Z) (i : Z)
    (args : list ast.Expr) (x : operand) : M operand :=
  match args with
  | [] => ret x
  | arg :: rest =>
      x <- lift (check_expr x arg) ;;
      x <- (if negb (mode_eqb (mode x) invalid)
            then argument sig i x (passSlice && (i =? n - 1))
            else ret x) ;;
      rangeArgs sig passSlice n (i + 1) rest x
  end.

(** Lines 47-78: evaluate the arguments; yields the argument count [n]. *)
Definition callArguments (sig : Signature) (Args : list ast.Expr)
    (passSlice : bool) (x : operand) : M (Z * operand) :=
  let n := Z.of_nat (List.length Args) in
  match Args with
  | [arg] =>
      (* single argument but possibly a multi-valued function call *)
      x <- lift (check_expr x arg) ;;
      if negb (mode_eqb (mode x) invalid) then
        match typ x with
        | Tuple t =>
            let n := Len t in
            x <- forComponents sig passSlice arg t n (Z.to_nat n) 0 x ;;
            ret (n, x)
        | _ =>
            x <- argument sig 0 x passSlice ;;
            ret (n, x)
        end
      else ret (Len (params sig), x)
  | _ =>
      (* zero or multiple arguments *)
      x <- rangeArgs sig passSlice n 0 Args x ;;
      ret (n, x)
  end.

(** Lines 80-89: check argument count.  [n] is the length of a list or of a
    tuple, so [n++] stays far from the bounds of [int]. *)
Definition callArity (sig : Signature) (Fun : ast.Expr) (n : Z) : M unit :=
  let n := if isVariadic sig then n + 1 else n in
  if n <? Len (params sig)
  then errorf (ast.Pos Fun) TooFewArguments [AExpr Fun]
  else ret tt.

(** Lines 91-102: determine result. *)
Definition callResult (sig : Signature) (e : ast.Expr) (x : operand) : operand :=
  let x :=
    match results sig with
    | [] => set_mode x novalue
    | [r] => set_typ (set_mode x value) (Var_typ r)
    | _ => set_typ (set_mode x value) (Tuple (results sig))
    end in
  set_expr x e.

(** Lines 47-103: the call once [passSlice] is known. *)
Definition callChecked (sig : Signature) (Fun : ast.Expr) (Args : list ast.Expr)
    (Ellipsis : token.Pos) (passSlice : bool) (x : operand) : M operand :=
  r <- callArguments sig Args passSlice x ;;
  let '(n, x) := r in
  callArity sig Fun n ;;;
  ret (callResult sig (ast.CallExpr Fun Args Ellipsis) x).

(** Lines 36-45: [passSlice]. *)
Definition callEllipsis (sig : Signature) (Fun : ast.Expr) (Ellipsis : token.Pos)
  : M bool :=
  if token.IsValid Ellipsis then
    (* last argument is of the form x... *)
    if isVariadic sig then ret true
    else errorf Ellipsis SpreadOnNonVariadic [AExpr Fun] ;;; ret false
  else ret false.

(** Lines 34-103: function/method call. *)
Definition callSignature (sig : Signature) (Fun : ast.Expr) (Args : list ast.Expr)
    (Ellipsis : token.Pos) (x : operand) : M operand :=
  passSlice <- callEllipsis sig Fun Ellipsis ;;
  callChecked sig Fun Args Ellipsis passSlice x.

(** Lines 20-22: the arguments of a call without a valid callee. *)
Fixpoint exprEach (args : list ast.Expr) (x : operand) : M operand :=
  match args with
  | [] => ret x
  | arg :: rest => x <- lift (check_expr x arg) ;; exprEach rest x
  end.

(** [func (check *checker) call(x, e)], lines 14-114, for
    [e = &ast.CallExpr{Fun, Args, Ellipsis}]. *)
Definition call (x : operand) (Fun : ast.Expr) (Args : list ast.Expr)
    (Ellipsis : token.Pos) : M operand :=
  let e := ast.CallExpr Fun Args Ellipsis in
  x <- lift (check_exprOrType x Fun) ;;
  if mode_eqb (mode x) invalid then
    x <- exprEach Args x ;;
    ret (set_expr (set_mode x invalid) e)
  else if mode_eqb (mode x) typexpr then
    lift (check_conversion x e (typ x))
  else
    match Underlying (typ x) with
    | SignatureT sig => callSignature sig Fun Args Ellipsis x
    | _ =>
        match typ x with
        | Builtin bin => lift (check_builtin x e bin)
        | _ =>
            invalidOp (pos x) NotCallable [AOperand x] ;;;
            ret (set_expr (set_mode x invalid) e)
        end
    end.

(** The label [Error:], lines 317-319. *)
Definition Error (e : ast.Expr) (x : operand) : M operand :=
  ret (set_expr (set_mode x invalid) e).

(** Lines 173-208: the selector is a qualified identifier; [X] is bound to
    [pkg_], a package with scope [scope].  The assertion of line 191 tests
    the method value [exp.Val], which is never nil. *)
Definition qualifiedIdent (x : operand) (X Sel : ast.Expr) (pkg_ : Object)
    (scope : Scope) : M operand :=
  let e := ast.SelectorExpr X Sel in
  let sel := ast.Name Sel in
  recordObject X pkg_ ;;;
  match Lookup scope sel with
  | None =>
      errorf (ast.Pos e) UndeclaredPackageMember [AString sel; AExpr X] ;;;
      Error e x
  | Some exp =>
      if negb (IsExported (Object_Name exp)) then
        errorf (ast.Pos e) UnexportedPackageMember [AString sel; AExpr X] ;;;
        Error e x
      else
        recordObject Sel exp ;;;
        match exp with
        | Const _ T v =>
            ret (set_expr (set_val (set_typ (set_mode x constant) T) v) e)
        | TypeName _ T => ret (set_expr (set_typ (set_mode x typexpr) T) e)
        | VarObj v => ret (set_expr (set_typ (set_mode x variable) (Var_typ v)) e)
        | Func _ T => ret (set_expr (set_typ (set_mode x value) T) e)
        | Package _ _ => panic "unreachable"
        end
  end.

(** Lines 231-257: method expression. *)
Definition methodExpr (x : operand) (e : ast.Expr) (sel : string)
    (obj : Object) (indirect : bool) : M operand :=
  match obj with
  | Func _ mtyp =>
      (* verify that m is in the method set of x.typ *)
      if negb indirect && ptrRecv obj then
        invalidOp (ast.Pos e) NotInMethodSet [AString sel; AType (typ x)] ;;;
        Error e x
      else
        match mtyp with
        | SignatureT sig =>
            c <- get_checker ;;
            let rcv := NewVar token.NoPos (pkg c) "" (typ x) in
            ret (set_expr
                   (set_typ (set_mode x value)
                      (SignatureT (mkSignature None (rcv :: params sig)
                                     (results sig) (isVariadic sig))))
                   e)
        | _ => panic "interface conversion: Type is not *Signature"
        end
  | _ =>
      invalidOp (ast.Pos e) NoSuchMethod [AOperand x; AString sel] ;;;
      Error e x
  end.

(** Lines 281-291: the type whose method set the debug build consults. *)
Definition methodSetType (x : operand) : Type_ :=
  if mode_eqb (mode x) variable
  then match typ x with
       | Pointer _ => typ x
       | _ => Pointer (typ x)
       end
  else typ x.

(** Lines 259-311: regular selector. *)
Definition regularSelector (x : operand) (e : ast.Expr) (sel : string)
    (obj : Object) (indirect : bool) : M operand :=
  match obj with
  | VarObj v => ret (set_expr (set_typ (set_mode x variable) (Var_typ v)) e)
  | Func _ ftyp =>
      if negb indirect && negb (mode_eqb (mode x) variable) && ptrRecv obj then
        invalidOp (ast.Pos e) NotInMethodSet [AString sel; AOperand x] ;;;
        Error e x
      else
        c <- get_checker ;;
        if debug && negb (methodSetAgrees (methodSetType x) (pkg c) sel obj) then
          panic "method sets and lookup don't agree"
        else
          ret (set_expr (set_typ (set_mode x value) ftyp) e)
  | _ => panic "unreachable"
  end.

(** Lines 212-315: the selector on an evaluated base. *)
Definition selectorExpr (x : operand) (X Sel : ast.Expr) : M operand :=
  let e := ast.SelectorExpr X Sel in
  let sel := ast.Name Sel in
  x <- lift (check_exprOrType x X) ;;
  if mode_eqb (mode x) invalid then Error e x
  else
    c <- get_checker ;;
    let '(obj, index, indirect) := LookupFieldOrMethod (typ x) (pkg c) sel in
    match obj with
    | None =>
        match index with
        | Some _ => invalidOp (ast.Pos e) AmbiguousSelector [AString sel]
        | None => invalidOp (ast.Pos e) NoSuchMember [AOperand x; AString sel]
        end ;;;
        Error e x
    | Some obj =>
        recordObject Sel (lookupResult (typ x) obj index indirect) ;;;
        if mode_eqb (mode x) typexpr
        then methodExpr x e sel obj indirect
        else regularSelector x e sel obj indirect
    end.

(** Lines 171-172: [X] is an identifier that refers to a package; yields
    the package and its scope. *)
Definition qualifier (c : checker) (X : ast.Expr) : option (Object * Scope) :=
  match X with
  | ast.Ident _ identName =>
      match LookupParent (topScope c) identName with
      | Some (Package pname scope) => Some (Package pname scope, scope)
      | _ => None
      end
  | _ => None
  end.

(** [func (check *checker) selector(x, e)], lines 158-320, for
    [e = &ast.SelectorExpr{X, Sel}]. *)
Definition selector (x : operand) (X Sel : ast.Expr) : M operand :=
  c <- get_checker ;;
  match qualifier c X with
  | Some (pkg_, scope) => qualifiedIdent x X Sel pkg_ scope
  | None => selectorExpr x X Sel
  end.

End Checker.

(* ===================================================================== *)
(** ** Positional arguments, as the specification words them              *)
(* ===================================================================== *)

Section Specification.
Context {K : Collaborators}.

(** The operand standing for one component of a multi-valued argument
    [arg]: a plain value of the component's type. *)
Definition component (x : operand) (arg : ast.Expr) (v : Var) : operand :=
  {| mode := value; expr := Some arg; typ := Var_typ v; val := val x |}.

(** Each component, in order, is a positional argument of its own starting
    at position [i]; only the last one is the tail of a spread. *)
Fixpoint positionalComponents (sig : Signature) (passSlice : bool)
    (arg : ast.Expr) (i : Z) (components : list Var) (x : operand) : M operand :=
  match components with
  | [] => ret x
  | [v] => argument sig i (component x arg v) passSlice
  | v :: rest =>
      x <- argument sig i (component x arg v) false ;;
      positionalComponents sig passSlice arg (i + 1) rest x
  end.

(** The number of positional arguments the call considered, [xa] being
    the operand of the argument when there is exactly one. *)
Definition consideredArguments (sig : Signature) (Args : list ast.Expr)
    (xa : operand) : Z :=
  match Args with
  | [_] =>
      if mode_eqb (mode xa) invalid then Len (params sig)
      else match typ xa with
           | Tuple t => Len t
           | _ => 1
           end
  | _ => Z.of_nat (List.length Args)
  end.

(** The invariant of a signature: the last parameter of a variadic
    signature is a slice. *)
Definition wfSignature (sig : Signature) : bool :=
  if isVariadic sig then
    match index (params sig) (Len (params sig) - 1) with
    | Some v => match Var_typ v with Slice _ => true | _ => false end
    | None => false
    end
  else true.

(** A computation returns: it does not panic. *)
Definition returns {A : Type} (m : M A) (c : checker) : Prop :=
  exists a c', m c = Done a c'.

(** The checker with one more diagnostic. *)
Definition reported (c : checker) (d : Diag) : checker :=
  {| pkg := pkg c; topScope := topScope c; Objects := Objects c;
     errors := errors c ++ [d] |}.

(** The checker with one more recorded object. *)
Definition recorded (c : checker) (id : ast.Expr) (obj : Object) : checker :=
  {| pkg := pkg c; topScope := topScope c; Objects := Objects c ++ [(id, obj)];
     errors := errors c |}.

(** The diagnostics of the file, as values. *)
Definition spreadOnNonVariadic (Fun : ast.Expr) (Ellipsis : token.Pos) : Diag :=
  {| d_pos := Ellipsis; d_invalidOp := false; d_kind := SpreadOnNonVariadic;
     d_args := [AExpr Fun] |}.
Definition tooFewArguments (Fun : ast.Expr) : Diag :=
  {| d_pos := ast.Pos Fun; d_invalidOp := false; d_kind := TooFewArguments;
     d_args := [AExpr Fun] |}.
Definition tooManyArguments (x : operand) : Diag :=
  {| d_pos := pos x; d_invalidOp := false; d_kind := TooManyArguments;
     d_args := [] |}.
Definition spreadPositionMismatch (x : operand) : Diag :=
  {| d_pos := pos x; d_invalidOp := false; d_kind := SpreadPositionMismatch;
     d_args := [] |}.
Definition spreadTypeMismatch (x : operand) (T : Type_) : Diag :=
  {| d_pos := pos x; d_invalidOp := false; d_kind := SpreadTypeMismatch;
     d_args := [AOperand x; AType T] |}.
Definition argumentTypeMismatch (x : operand) (T : Type_) : Diag :=
  {| d_pos := pos x; d_invalidOp := false; d_kind := ArgumentTypeMismatch;
     d_args := [AOperand x; AType T] |}.
Definition undeclaredPackageMember (X Sel : ast.Expr) : Diag :=
  {| d_pos := ast.Pos X; d_invalidOp := false; d_kind := UndeclaredPackageMember;
     d_args := [AString (ast.Name Sel); AExpr X] |}.
Definition unexportedPackageMember (X Sel : ast.Expr) : Diag :=
  {| d_pos := ast.Pos X; d_invalidOp := false; d_kind := UnexportedPackageMember;
     d_args := [AString (ast.Name Sel); AExpr X] |}.
Definition notInMethodSet (X Sel : ast.Expr) (set : Arg) : Diag :=
  {| d_pos := ast.Pos X; d_invalidOp := true; d_kind := NotInMethodSet;
     d_args := [AString (ast.Name Sel); set] |}.

(** The callee [Fun] evaluates to the operand [xf], a function value whose
    underlying type is the signature [sig]; [cf] is the checker then. *)
Definition calleeSignature (x : operand) (Fun : ast.Expr) (c : checker)
    (xf : operand) (cf : checker) (sig : Signature) : Prop :=
  check_exprOrType x Fun c = (xf, cf)
  /\ mode_eqb (mode xf) invalid = false
  /\ mode_eqb (mode xf) typexpr = false
  /\ Underlying (typ xf) = SignatureT sig.

(** [passSlice] as lines 36-45 leave it, and the checker after them. *)
Definition passSliceOf (sig : Signature) (Ellipsis : token.Pos) : bool :=
  token.IsValid Ellipsis && isVariadic sig.
Definition afterEllipsis (sig : Signature) (Fun : ast.Expr) (Ellipsis : token.Pos)
    (c : checker) : checker :=
  if token.IsValid Ellipsis && negb (isVariadic sig)
  then reported c (spreadOnNonVariadic Fun Ellipsis)
  else c.

(** The argument count the arity check compares with the parameter count. *)
Definition adjustedCount (sig : Signature) (n : Z) : Z :=
  if isVariadic sig then n + 1 else n.

Definition isSlice (t : Type_) : bool :=
  match t with Slice _ => true | _ => false end.

(** The selector [X.Sel] is not a qualified identifier, its base [X]
    evaluates to the operand [xb], and the lookup of [Sel] in the type of
    [xb] finds [obj]. *)
Definition resolves (x : operand) (X Sel : ast.Expr) (c : checker)
    (xb : operand) (cb : checker) (obj : Object) (path : option (list Z))
    (indirect : bool) : Prop :=
  qualifier c X = None
  /\ check_exprOrType x X c = (xb, cb)
  /\ mode_eqb (mode xb) invalid = false
  /\ LookupFieldOrMethod (typ xb) (pkg cb) (ast.Name Sel) = (Some obj, path, indirect).

(** The operand of every error exit. *)
Definition invalidated (x : operand) (e : ast.Expr) : operand :=
  {| mode := invalid; expr := Some e; typ := typ x; val := val x |}.

(** The type of the method expression of a method with signature [sig] on
    the receiver type [T]. *)
Definition methodExprType (c : checker) (T : Type_) (sig : Signature) : Type_ :=
  SignatureT (mkSignature None (NewVar token.NoPos (pkg c) "" T :: params sig)
                (results sig) (isVariadic sig)).

(** One argument expression of a call written without spread, at position
    [i]: the expression is evaluated and, when the evaluation succeeded, the
    operand is checked against position [i] by the argument matcher. *)
Definition evaluatedAndChecked (sig : Signature) (i : Z) (arg : ast.Expr)
    (x : operand) : M operand :=
  fun c =>
    let (xa, ca) := check_expr x arg c in
    if mode_eqb (mode xa) invalid then Done xa ca
    else argument sig i xa false ca.

(** Every argument expression, left to right, from position [i] on. *)
Fixpoint eachArgument (sig : Signature) (i : Z) (args : list ast.Expr)
    (x : operand) : M operand :=
  match args with
  | [] => ret x
  | arg :: rest =>
      x' <- evaluatedAndChecked sig i arg x ;;
      eachArgument sig (i + 1) rest x'
  end.

(** The arguments of a call written without spread, with the count the
    arity check is given.  A single argument expression is evaluated once: a
    failed one is not checked and counts as the parameters do, a tuple is
    checked component by component, any other value is checked at position
    0.  Zero or several argument expressions are each evaluated and
    checked. *)
Definition argumentsWithoutSpread (sig : Signature) (Args : list ast.Expr)
    (x : operand) : M (Z * operand) :=
  match Args with
  | [arg] =>
      fun c =>
        let (xa, ca) := check_expr x arg c in
        if mode_eqb (mode xa) invalid then Done (Len (params sig), xa) ca
        else match typ xa with
             | Tuple t =>
                 (x' <- positionalComponents sig false arg 0 t xa ;;
                  ret (Len t, x')) ca
             | _ => (x' <- argument sig 0 xa false ;; ret (1, x')) ca
             end
  | _ =>
      x' <- eachArgument sig 0 Args x ;;
      ret (Z.of_nat (List.length Args), x')
  end.

End Specification.

(* ===================================================================== *)
(** ** A sample package to run the checker on                             *)
(* ===================================================================== *)

Module sample.
Local Open Scope string_scope.

Definition int_ : Type_ := Basic "int".
Definition string_ : Type_ := Basic "string".
Definition T : Type_ := Named "T" (Basic "struct").

Definition var (name : string) (t : Type_) : Var := NewVar 0 "main" name t.

(** [func f(a int, b ...string)] *)
Definition f_sig : Signature :=
  mkSignature None [var "a" int_; var "b" (Slice string_)] [] true.
(** [func h(a int, b string) int] *)
Definition h_sig : Signature :=
  mkSignature None [var "a" int_; var "b" string_] [var "" int_] false.
(** [func one(a int) (int, string)] *)
Definition one_sig : Signature :=
  mkSignature None [var "a" int_] [var "" int_; var "" string_] false.
(** [func (t *T) M(a int)] and [func (t T) N()] *)
Definition M_sig : Signature :=
  mkSignature (Some (var "t" (Pointer T))) [var "a" int_] [] false.
Definition N_sig : Signature :=
  mkSignature (Some (var "t" T)) [] [] false.
Definition M_ : Object := Func "M" (SignatureT M_sig).
Definition N_ : Object := Func "N" (SignatureT N_sig).

(** What the expressions of the sample denote: literals and variables
    ([Other] nodes by tag), and a few identifiers and calls.
    [g()] yields [(int, string)], [mk()] a [T]. *)
Definition denotes (e : ast.Expr) : option (operandMode * Type_) :=
  match e with
  | ast.Other _ 1 => Some (value, int_)              (* 1 *)
  | ast.Other _ 2 => Some (value, string_)           (* "x" *)
  | ast.Other _ 3 => Some (value, Slice string_)     (* someSliceOfString *)
  | ast.Other _ 4 => Some (typexpr, Pointer T)       (* ( *T ) *)
  | ast.Ident _ "f" => Some (value, SignatureT f_sig)
  | ast.Ident _ "h" => Some (value, SignatureT h_sig)
  | ast.Ident _ "one" => Some (value, SignatureT one_sig)
  | ast.Ident _ "T" => Some (typexpr, T)
  | ast.Ident _ "v" => Some (variable, T)
  | ast.CallExpr (ast.Ident _ "g") [] _ => Some (value, Tuple [var "" int_; var "" string_])
  | ast.CallExpr (ast.Ident _ "mk") [] _ => Some (value, T)
  | _ => None
  end%string.

(** Every expression outside [denotes] fails to evaluate. *)
Definition eval (x : operand) (e : ast.Expr) (c : checker) : operand * checker :=
  match denotes e with
  | Some (m, t) => ({| mode := m; expr := Some e; typ := t; val := None |}, c)
  | None => ({| mode := invalid; expr := Some e; typ := Basic "invalid"; val := None |}, c)
  end.

(** Identical basic, named, pointer and slice types. *)
Fixpoint identical (a b : Type_) : bool :=
  match a, b with
  | Basic n, Basic m => String.eqb n m
  | Named n _, Named m _ => String.eqb n m
  | Pointer a', Pointer b' => identical a' b'
  | Slice a', Slice b' => identical a' b'
  | _, _ => false
  end.

(** A value is assignable to an identical type; a tuple is not a single
    value and invalidates the operand. *)
Definition assignment (x : operand) (t : Type_) (c : checker)
  : (bool * operand) * checker :=
  if mode_eqb (mode x) invalid then ((false, x), c)
  else match typ x with
       | Tuple _ => ((false, set_mode x invalid), c)
       | _ => ((identical (typ x) t, x), c)
       end.

(** [T] has a field [x], a method [N] and, through its pointer, [M]. *)
Definition members (t : Type_) (p : PkgId) (name : string)
  : option Object * option (list Z) * bool :=
  let of_T (indirect : bool) :=
    if String.eqb name "M" then (Some M_, Some [0], indirect)
    else if String.eqb name "N" then (Some N_, Some [0], indirect)
    else if String.eqb name "x" then (Some (VarObj (var "x" int_)), Some [0], indirect)
    else (None, None, false) in
  match t with
  | Named "T" _ => of_T false
  | Pointer (Named "T" _) => of_T true
  | _ => (None, None, false)
  end%string.

Definition pointerReceiver (f : Object) : bool :=
  match f with
  | Func _ (SignatureT (mkSignature (Some (NewVar _ _ _ (Pointer _))) _ _ _)) => true
  | _ => false
  end.

(** A name is exported when it starts with an upper-case letter. *)
Definition exported (name : string) : bool :=
  match name with
  | String a _ =>
      let n := Ascii.nat_of_ascii a in (Nat.leb 65 n && Nat.leb n 90)%bool
  | EmptyString => false
  end.

Definition collaborators : Collaborators := {|
  check_exprOrType := eval;
  check_expr := eval;
  check_conversion := fun x e t c =>
    ({| mode := value; expr := Some e; typ := t; val := val x |}, c);
  check_builtin := fun x e _ c => (set_expr (set_mode x novalue) e, c);
  check_assignment := assignment;
  LookupFieldOrMethod := members;
  lookupResult := fun _ obj _ _ => obj;
  ptrRecv := pointerReceiver;
  IsExported := exported;
  debug := false;
  methodSetAgrees := fun _ _ _ _ => true
|}.

(** Package [lib] declares [Exported] and, from its compiled interface,
    [hidden]. *)
Definition lib_scope : Scope :=
  NewScope None [Func "Exported" (SignatureT h_sig); TypeName "hidden" T].
Definition lib : Object := Package "lib" lib_scope.

Definition universe : Scope := NewScope None [lib].

Definition check0 : checker :=
  {| pkg := "main"; topScope := universe; Objects := []; errors := [] |}.

Definition x0 : operand :=
  {| mode := invalid; expr := None; typ := Basic "invalid"; val := None |}.

Definition id (name : string) : ast.Expr := ast.Ident 1 name.
Definition lit (tag : Z) : ast.Expr := ast.Other 5 tag.

(** The operand an expression of the sample evaluates to. *)
Definition evaluated (e : ast.Expr) : operand := fst (eval x0 e check0).

(** The calls [g()] and [mk()]. *)
Definition g_call : ast.Expr := ast.CallExpr (id "g") [] 0.
Definition mk_call : ast.Expr := ast.CallExpr (id "mk") [] 0.

(** The kinds of the diagnostics of an outcome, oldest first. *)
Definition kinds (o : outcome operand) : list ErrorKind :=
  match o with
  | Done _ c => map d_kind (errors c)
  | Panic _ => []
  end.

Definition result (o : outcome operand) : option (operandMode * Type_) :=
  match o with
  | Done x _ => Some (mode x, typ x)
  | Panic _ => None
  end.

(** The operand and the checker of an outcome. *)
Definition operandOf (o : outcome operand) : operand :=
  match o with
  | Done x _ => x
  | Panic _ => x0
  end.

Definition checkerOf (o : outcome operand) : checker :=
  match o with
  | Done _ c => c
  | Panic _ => check0
  end.

(** The checker belongs to package [main]. *)
Definition ofMain (c : checker) : Prop := pkg c = "main".

End sample.


(* ===================================================================== *)
(** ** What a check may do to the checker                                 *)
(* ===================================================================== *)

Definition kind_eqb (a b : ErrorKind) : bool :=
  match a, b with
  | NotCallable, NotCallable | SpreadOnNonVariadic, SpreadOnNonVariadic
  | TooFewArguments, TooFewArguments | TooManyArguments, TooManyArguments
  | SpreadPositionMismatch, SpreadPositionMismatch
  | SpreadTypeMismatch, SpreadTypeMismatch
  | ArgumentTypeMismatch, ArgumentTypeMismatch
  | UndeclaredPackageMember, UndeclaredPackageMember
  | UnexportedPackageMember, UnexportedPackageMember
  | NoSuchMember, NoSuchMember | AmbiguousSelector, AmbiguousSelector
  | NoSuchMethod, NoSuchMethod | NotInMethodSet, NotInMethodSet => true
  | _, _ => false
  end.

(** No diagnostic of kind [k] is in the sink. *)
Definition lacks (k : ErrorKind) (c : checker) : bool :=
  forallb (fun d => negb (kind_eqb (d_kind d) k)) (errors c).

(** The checker [c'] is [c] with more diagnostics and more recorded
    objects, and nothing else changed. *)
Definition extends (c c' : checker) : Prop :=
  pkg c' = pkg c
  /\ topScope c' = topScope c
  /\ (exists ds, errors c' = errors c ++ ds)
  /\ (exists os, Objects c' = Objects c ++ os).

(** The kinds [argument] reports at position [i] of [sig]. *)
Definition argumentReports (sig : Signature) (i : Z) (k : ErrorKind) : bool :=
  if negb (isVariadic sig) && (Len (params sig) <=? i)
  then kind_eqb k TooManyArguments
  else kind_eqb k SpreadPositionMismatch
       || kind_eqb k SpreadTypeMismatch
       || kind_eqb k ArgumentTypeMismatch.

(** The kinds [call] reports. *)
Definition callReports (k : ErrorKind) : bool :=
  match k with
  | NotCallable | SpreadOnNonVariadic | TooFewArguments | TooManyArguments
  | SpreadPositionMismatch | SpreadTypeMismatch | ArgumentTypeMismatch => true
  | _ => false
  end.

(** The kinds [selector] reports. *)
Definition selectorReports (k : ErrorKind) : bool :=
  match k with
  | UndeclaredPackageMember | UnexportedPackageMember | NoSuchMember
  | AmbiguousSelector | NoSuchMethod | NotInMethodSet => true
  | _ => false
  end.

Section Frames.
Context {K : Collaborators}.

(** The collaborators keep the property [P] of the checker. *)
Record Keeps (P : checker -> Prop) : Prop := {
  keeps_exprOrType : forall x e c, P c -> P (snd (check_exprOrType x e c));
  keeps_expr : forall x e c, P c -> P (snd (check_expr x e c));
  keeps_conversion : forall x e T c, P c -> P (snd (check_conversion x e T c));
  keeps_builtin : forall x e b c, P c -> P (snd (check_builtin x e b c));
  keeps_assignment : forall x T c, P c -> P (snd (check_assignment x T c))
}.

(** The property [P] of the checker survives the collaborators and the
    report of a diagnostic of an [allowed] kind. *)
Record Frame (allowed : ErrorKind -> bool) (P : checker -> Prop) : Prop := {
  frame_keeps : Keeps P;
  frame_report : forall c d, allowed (d_kind d) = true -> P c -> P (reported c d)
}.

(** The property [P] of the checker survives the recording of an object. *)
Definition Records (P : checker -> Prop) : Prop :=
  forall c id obj, P c -> P (recorded c id obj).

(** The collaborators only add diagnostics and recorded objects. *)
Record Growing : Prop := {
  growing_exprOrType : forall x e c, extends c (snd (check_exprOrType x e c));
  growing_expr : forall x e c, extends c (snd (check_expr x e c));
  growing_conversion : forall x e T c, extends c (snd (check_conversion x e T c));
  growing_builtin : forall x e b c, extends c (snd (check_builtin x e b c));
  growing_assignment : forall x T c, extends c (snd (check_assignment x T c))
}.

(** The kinds [call] reports when no argument stands beyond the
    parameters. *)
Definition callReportsWithin (k : ErrorKind) : bool :=
  callReports k && negb (kind_eqb k TooManyArguments).

(** [P] holds of the checker a computation returns with. *)
Definition ensures {A : Type} (m : M A) (c : checker) (P : checker -> Prop) : Prop :=
  forall a c', m c = Done a c' -> P c'.

(** The arguments of a call evaluated one after the other, each on the
    operand and the checker the one before left. *)
Definition evalEach (args : list ast.Expr) (s : operand * checker)
  : operand * checker :=
  fold_left (fun s arg => check_expr (fst s) arg (snd s)) args s.

(** What the member lookup may hand to the selector: a field, or a method
    whose type is a signature. *)
Definition isMember (obj : Object) : bool :=
  match obj with
  | VarObj _ => true
  | Func _ (SignatureT _) => true
  | _ => false
  end.

Definition isPackage (obj : Object) : bool :=
  match obj with Package _ _ => true | _ => false end.

(** The signature of a method expression: the receiver type comes first. *)
Definition methodExprSignature (c : checker) (T : Type_) (sig : Signature)
  : Signature :=
  mkSignature None (NewVar token.NoPos (pkg c) "" T :: params sig)
    (results sig) (isVariadic sig).

End Frames.

(* ===================================================================== *)
(** ** Basic facts                                                        *)
(* ===================================================================== *)

Lemma mode_eqb_eq (a b : operandMode) : mode_eqb a b = true <-> a = b.
Proof. destruct a, b; simpl; split; intro H; try reflexivity; discriminate H. Qed.

Lemma mode_eqb_neq (a b : operandMode) : mode_eqb a b = false <-> a <> b.
Proof.
  split.
  - intros H E. apply mode_eqb_eq in E. congruence.
  - intros H. destruct (mode_eqb a b) eqn:E; [ | reflexivity ].
    apply mode_eqb_eq in E. contradiction.
Qed.

Lemma index_in_range {A : Type} (l : list A) (i : Z) :
  0 <= i < Z.of_nat (List.length l) -> exists v, index l i = Some v.
Proof.
  intros [Hlo Hhi]. unfold index.
  destruct (i <? 0) eqn:E; [ apply Z.ltb_lt in E; lia | ].
  destruct (nth_error l (Z.to_nat i)) as [v | ] eqn:N; [ eauto | ].
  apply nth_error_None in N. lia.
Qed.

Lemma index_middle {A : Type} (pre : list A) (v : A) (suf : list A) :
  index (pre ++ v :: suf) (Z.of_nat (List.length pre)) = Some v.
Proof.
  unfold index.
  destruct (Z.of_nat (List.length pre) <? 0) eqn:E; [ apply Z.ltb_lt in E; lia | ].
  rewrite Nat2Z.id, nth_error_app2 by lia.
  rewrite Nat.sub_diag. reflexivity.
Qed.

Lemma index_Len (pre : list Var) (v : Var) (suf : list Var) :
  index (pre ++ v :: suf) (Len pre) = Some v.
Proof. apply index_middle. Qed.

Lemma Len_app (a b : list Var) : Len (a ++ b) = Len a + Len b.
Proof. unfold Len. rewrite length_app. lia. Qed.

Lemma Len_nonneg (a : list Var) : 0 <= Len a.
Proof. unfold Len. lia. Qed.

(** *** Running the monad *)

Lemma bind_Done {A B : Type} (m : M A) (k : A -> M B) (c c' : checker) (a : A) :
  m c = Done a c' -> bind m k c = k a c'.
Proof. intros H. unfold bind. rewrite H. reflexivity. Qed.

Lemma lift_Done {A : Type} (f : checker -> A * checker) (c c' : checker) (a : A) :
  f c = (a, c') -> lift f c = Done a c'.
Proof. intros H. unfold lift. rewrite H. reflexivity. Qed.

Lemma errorf_Done (p : token.Pos) (k : ErrorKind) (args : list Arg) (c : checker) :
  errorf p k args c
  = Done tt (reported c {| d_pos := p; d_invalidOp := false; d_kind := k; d_args := args |}).
Proof. reflexivity. Qed.

Lemma invalidOp_Done (p : token.Pos) (k : ErrorKind) (args : list Arg) (c : checker) :
  invalidOp p k args c
  = Done tt (reported c {| d_pos := p; d_invalidOp := true; d_kind := k; d_args := args |}).
Proof. reflexivity. Qed.

Lemma returns_ret {A : Type} (a : A) (c : checker) : returns (ret a) c.
Proof. exists a, c. reflexivity. Qed.

Lemma returns_lift {A : Type} (f : checker -> A * checker) (c : checker) :
  returns (lift f) c.
Proof. unfold returns, lift. destruct (f c) as [a c']. eauto. Qed.

Lemma returns_report (d : Diag) (c : checker) : returns (report d) c.
Proof. unfold returns, report. eauto. Qed.

Lemma returns_bind {A B : Type} (m : M A) (k : A -> M B) (c : checker) :
  returns m c ->
  (forall a c', m c = Done a c' -> returns (k a) c') ->
  returns (bind m k) c.
Proof.
  intros (a & c' & Hm) Hk. unfold returns.
  rewrite (bind_Done _ _ _ _ _ Hm). exact (Hk a c' Hm).
Qed.

(** A report followed by a return. *)
Ltac report_then_return :=
  apply returns_bind; [ apply returns_report | intros; apply returns_ret ].

(* ===================================================================== *)
(** ** The checks return on well-formed signatures                        *)
(* ===================================================================== *)

Section Totality.
Context {K : Collaborators}.

Lemma assign_returns (x : operand) (T : Type_) (c : checker) :
  returns (assign x T) c.
Proof.
  unfold assign. apply returns_bind; [ apply returns_lift | ].
  intros [ok x'] c' _.
  destruct (negb ok && negb (mode_eqb (mode x') invalid)).
  - report_then_return.
  - apply returns_ret.
Qed.

(** On a variadic well-formed signature the parameter at the variadic slot
    is a slice. *)
Lemma wfSignature_variadic (sig : Signature) :
  wfSignature sig = true -> isVariadic sig = true ->
  exists v elt, index (params sig) (Len (params sig) - 1) = Some v
                /\ Var_typ v = Slice elt.
Proof.
  unfold wfSignature. intros H V. rewrite V in H.
  destruct (index (params sig) (Len (params sig) - 1)) as [v | ]; [ | discriminate ].
  destruct (Var_typ v) eqn:E; try discriminate. eauto.
Qed.

Lemma argument_returns (sig : Signature) (i : Z) (x : operand) (passSlice : bool)
    (c : checker) :
  wfSignature sig = true -> 0 <= i -> returns (argument sig i x passSlice) c.
Proof.
  intros WF Hi. unfold argument.
  assert (Epilogue : forall T,
    (isVariadic sig && (i >=? Len (params sig) - 1) = true -> exists elt, T = Slice elt) ->
    returns
      (if passSlice
       then if negb (i =? Len (params sig) - 1)
            then errorf (pos x) SpreadPositionMismatch [] ;;; ret x
            else match typ x with
                 | Slice _ => assign x T
                 | _ => errorf (pos x) SpreadTypeMismatch [AOperand x; AType T] ;;; ret x
                 end
       else if isVariadic sig && (i >=? Len (params sig) - 1)
            then match T with
                 | Slice elt => assign x elt
                 | _ => panic "interface conversion: Type is not *Slice"
                 end
            else assign x T) c).
  { intros T HT. destruct passSlice.
    - destruct (negb (i =? Len (params sig) - 1)).
      + report_then_return.
      + destruct (typ x); try apply assign_returns;
          report_then_return.
    - destruct (isVariadic sig && (i >=? Len (params sig) - 1)) eqn:E.
      + destruct (HT eq_refl) as [elt ->]. apply assign_returns.
      + apply assign_returns. }
  destruct (i <? Len (params sig)) eqn:Lt.
  - apply Z.ltb_lt in Lt.
    destruct (index_in_range (params sig) i) as [v Hv]; [ unfold Len in Lt; lia | ].
    rewrite Hv. apply Epilogue. intros E.
    apply andb_true_iff in E. destruct E as [V Ge]. apply Z.geb_le in Ge.
    destruct (wfSignature_variadic sig WF V) as (w & elt & Hw & Hs).
    assert (i = Len (params sig) - 1) by lia. subst i.
    rewrite Hw in Hv. injection Hv as <-. eauto.
  - destruct (isVariadic sig) eqn:V.
    + destruct (wfSignature_variadic sig WF V) as (w & elt & Hw & Hs).
      rewrite Hw. apply Epilogue. intros _. eauto.
    + report_then_return.
Qed.

Lemma forComponents_returns (sig : Signature) (passSlice : bool) (arg : ast.Expr)
    (t : list Var) (n : Z) (k : nat) :
  wfSignature sig = true ->
  forall (i : Z) (x : operand) (c : checker),
    0 <= i -> i + Z.of_nat k <= Len t ->
    returns (forComponents sig passSlice arg t n k i x) c.
Proof.
  intros WF. induction k as [ | k IH]; intros i x c Hi Hk; simpl.
  - apply returns_ret.
  - destruct (index_in_range t i) as [v Hv]; [ unfold Len in Hk; lia | ].
    rewrite Hv. apply returns_bind.
    + apply argument_returns; assumption.
    + intros x' c' _. apply IH; lia.
Qed.

Lemma rangeArgs_returns (sig : Signature) (passSlice : bool) (n : Z)
    (args : list ast.Expr) :
  wfSignature sig = true ->
  forall (i : Z) (x : operand) (c : checker),
    0 <= i -> returns (rangeArgs sig passSlice n i args x) c.
Proof.
  intros WF. induction args as [ | arg rest IH]; intros i x c Hi; simpl.
  - apply returns_ret.
  - apply returns_bind; [ apply returns_lift | ].
    intros x1 c1 _. apply returns_bind.
    + destruct (negb (mode_eqb (mode x1) invalid)).
      * apply argument_returns; assumption.
      * apply returns_ret.
    + intros x2 c2 _. apply IH. lia.
Qed.

Lemma callArguments_returns (sig : Signature) (Args : list ast.Expr)
    (passSlice : bool) (x : operand) (c : checker) :
  wfSignature sig = true -> returns (callArguments sig Args passSlice x) c.
Proof.
  intros WF. unfold callArguments.
  assert (Range : returns
            (x' <- rangeArgs sig passSlice (Z.of_nat (List.length Args)) 0 Args x ;;
             ret (Z.of_nat (List.length Args), x')) c).
  { apply returns_bind; [ apply rangeArgs_returns; [ assumption | lia ] | ].
    intros; apply returns_ret. }
  destruct Args as [ | arg [ | arg' rest]]; try exact Range.
  apply returns_bind; [ apply returns_lift | ].
  intros x1 c1 _.
  destruct (negb (mode_eqb (mode x1) invalid)); [ | apply returns_ret ].
  destruct (typ x1);
    try (apply returns_bind;
         [ apply argument_returns; [ assumption | lia ] | intros; apply returns_ret ]).
  apply returns_bind; [ | intros; apply returns_ret ].
  apply forComponents_returns; [ assumption | lia | ].
  pose proof (Len_nonneg vars). lia.
Qed.

End Totality.

(* ===================================================================== *)
(** ** The call checker                                                   *)
(* ===================================================================== *)

Section CallChecker.
Context {K : Collaborators}.

Lemma bind_inv {A B : Type} (m : M A) (k : A -> M B) (c c' : checker) (b : B) :
  bind m k c = Done b c' ->
  exists a c1, m c = Done a c1 /\ k a c1 = Done b c'.
Proof.
  unfold bind. destruct (m c) as [a c1 | msg]; [ eauto | discriminate ].
Qed.

Lemma bind_ret_r {A : Type} (m : M A) (c : checker) : bind m ret c = m c.
Proof. unfold bind, ret. destruct (m c); reflexivity. Qed.

Lemma bind_ext {A B : Type} (m : M A) (k1 k2 : A -> M B) (c : checker) :
  (forall a c', k1 a c' = k2 a c') -> bind m k1 c = bind m k2 c.
Proof. intros H. unfold bind. destruct (m c); [ apply H | reflexivity ]. Qed.

Lemma callEllipsis_Done (sig : Signature) (Fun : ast.Expr) (Ellipsis : token.Pos)
    (c : checker) :
  callEllipsis sig Fun Ellipsis c
  = Done (passSliceOf sig Ellipsis) (afterEllipsis sig Fun Ellipsis c).
Proof.
  unfold callEllipsis, passSliceOf, afterEllipsis.
  destruct (token.IsValid Ellipsis), (isVariadic sig); reflexivity.
Qed.

Lemma callArity_Done (sig : Signature) (Fun : ast.Expr) (n : Z) (c : checker) :
  callArity sig Fun n c
  = Done tt (if adjustedCount sig n <? Len (params sig)
             then reported c (tooFewArguments Fun) else c).
Proof.
  unfold callArity, adjustedCount.
  destruct ((if isVariadic sig then n + 1 else n) <? Len (params sig)); reflexivity.
Qed.

Lemma callChecked_Done (sig : Signature) (Fun : ast.Expr) (Args : list ast.Expr)
    (Ellipsis : token.Pos) (passSlice : bool) (x x1 : operand) (c c1 : checker) (n : Z) :
  callArguments sig Args passSlice x c = Done (n, x1) c1 ->
  callChecked sig Fun Args Ellipsis passSlice x c
  = Done (callResult sig (ast.CallExpr Fun Args Ellipsis) x1)
         (if adjustedCount sig n <? Len (params sig)
          then reported c1 (tooFewArguments Fun) else c1).
Proof.
  intros H. unfold callChecked.
  rewrite (bind_Done _ _ _ _ _ H).
  rewrite (bind_Done _ _ _ _ _ (callArity_Done sig Fun n c1)). reflexivity.
Qed.

(** A call whose callee is a function value is checked by lines 34-103. *)
Lemma call_callee (x : operand) (Fun : ast.Expr) (Args : list ast.Expr)
    (Ellipsis : token.Pos) (c : checker) (xf : operand) (cf : checker)
    (sig : Signature) :
  calleeSignature x Fun c xf cf sig ->
  call x Fun Args Ellipsis c
  = callChecked sig Fun Args Ellipsis (passSliceOf sig Ellipsis) xf
      (afterEllipsis sig Fun Ellipsis cf).
Proof.
  intros (Ev & NotInvalid & NotType & Sig). unfold call.
  rewrite (bind_Done _ _ _ _ _ (lift_Done _ _ _ _ Ev)).
  rewrite NotInvalid, NotType, Sig. unfold callSignature.
  rewrite (bind_Done _ _ _ _ _ (callEllipsis_Done sig Fun Ellipsis cf)).
  reflexivity.
Qed.

(** What [callResult] leaves in the operand. *)
Lemma callResult_shape (sig : Signature) (e : ast.Expr) (x : operand) :
  expr (callResult sig e x) = Some e
  /\ (results sig = [] -> mode (callResult sig e x) = novalue)
  /\ (forall r, results sig = [r] ->
        mode (callResult sig e x) = value /\ typ (callResult sig e x) = Var_typ r)
  /\ (2 <= Len (results sig) ->
        mode (callResult sig e x) = value
        /\ typ (callResult sig e x) = Tuple (results sig)).
Proof.
  unfold callResult. repeat split.
  - intros ->. reflexivity.
  - rewrite H. reflexivity.
  - rewrite H. reflexivity.
  - destruct (results sig) as [ | r [ | r' rest]]; cbn in H; try lia. reflexivity.
  - destruct (results sig) as [ | r [ | r' rest]]; cbn in H; try lia. reflexivity.
Qed.

(** C9.  A call whose callee has a signature type returns, and its result
    operand is: mode [novalue] when the signature has no result; mode
    [value] with the type of the result when it has exactly one; mode
    [value] with the tuple of the results when it has more.  Nothing the
    argument or arity checks reported changes that. *)
Theorem call_result_operand (x : operand) (Fun : ast.Expr) (Args : list ast.Expr)
    (Ellipsis : token.Pos) (c : checker) (xf : operand) (cf : checker)
    (sig : Signature) :
  calleeSignature x Fun c xf cf sig ->
  wfSignature sig = true ->
  exists x' c',
    call x Fun Args Ellipsis c = Done x' c'
    /\ expr x' = Some (ast.CallExpr Fun Args Ellipsis)
    /\ (results sig = [] -> mode x' = novalue)
    /\ (forall r, results sig = [r] -> mode x' = value /\ typ x' = Var_typ r)
    /\ (2 <= Len (results sig) ->
          mode x' = value /\ typ x' = Tuple (results sig)).
Proof.
  intros Callee WF.
  destruct (callArguments_returns sig Args (passSliceOf sig Ellipsis) xf
              (afterEllipsis sig Fun Ellipsis cf) WF) as ([n x1] & c1 & HA).
  rewrite (call_callee _ _ _ _ _ _ _ _ Callee).
  rewrite (callChecked_Done _ _ _ _ _ _ _ _ _ _ HA).
  eexists _, _. split; [ reflexivity | ].
  apply callResult_shape.
Qed.

(** The count [callArguments] yields is the number of positional arguments
    considered. *)
Lemma callArguments_count (sig : Signature) (Args : list ast.Expr) (passSlice : bool)
    (x x1 : operand) (c c1 : checker) (n : Z) :
  callArguments sig Args passSlice x c = Done (n, x1) c1 ->
  n = consideredArguments sig Args (fst (check_expr x (hd (ast.Other 0 0) Args) c)).
Proof.
  unfold callArguments, consideredArguments.
  destruct Args as [ | arg [ | arg' rest]].
  - intros H. apply bind_inv in H. destruct H as (x' & c' & _ & H).
    unfold ret in H. congruence.
  - cbn [hd]. destruct (check_expr x arg c) as [xa ca] eqn:Ev. intros H.
    rewrite (bind_Done _ _ _ _ _ (lift_Done _ _ _ _ Ev)) in H. cbn [fst].
    destruct (mode_eqb (mode xa) invalid); cbn [negb] in H.
    + unfold ret in H. congruence.
    + destruct (typ xa);
        apply bind_inv in H; destruct H as (x' & c' & _ & H);
        unfold ret in H; injection H as <- _ _; reflexivity.
  - intros H. apply bind_inv in H. destruct H as (x' & c' & _ & H).
    unfold ret in H. congruence.
Qed.

(** C6.  The arity check reports [TooFewArguments] exactly when the number
    of positional arguments considered, counted one higher for a variadic
    signature, is below the parameter count; the call still yields its
    result operand, and an excess of arguments is not reported here. *)
Theorem call_arity_check (x : operand) (Fun : ast.Expr) (Args : list ast.Expr)
    (Ellipsis : token.Pos) (c : checker) (xf : operand) (cf : checker)
    (sig : Signature) (n : Z) (x1 : operand) (c1 : checker) :
  calleeSignature x Fun c xf cf sig ->
  callArguments sig Args (passSliceOf sig Ellipsis) xf
    (afterEllipsis sig Fun Ellipsis cf) = Done (n, x1) c1 ->
  n = consideredArguments sig Args
        (fst (check_expr xf (hd (ast.Other 0 0) Args)
                (afterEllipsis sig Fun Ellipsis cf)))
  /\ exists c',
       call x Fun Args Ellipsis c
       = Done (callResult sig (ast.CallExpr Fun Args Ellipsis) x1) c'
       /\ (adjustedCount sig n < Len (params sig) ->
             c' = reported c1 (tooFewArguments Fun))
       /\ (Len (params sig) <= adjustedCount sig n -> c' = c1).
Proof.
  intros Callee HA. split; [ exact (callArguments_count _ _ _ _ _ _ _ _ HA) | ].
  rewrite (call_callee _ _ _ _ _ _ _ _ Callee).
  rewrite (callChecked_Done _ _ _ _ _ _ _ _ _ _ HA).
  eexists. split; [ reflexivity | ].
  destruct (adjustedCount sig n <? Len (params sig)) eqn:E.
  - apply Z.ltb_lt in E. split; [ reflexivity | lia ].
  - apply Z.ltb_ge in E. split; [ lia | reflexivity ].
Qed.

(** C5.  When the only argument of a call fails to evaluate, no argument is
    checked against a parameter and the argument count is taken to be the
    parameter count: the call ends in the very checker the evaluation of the
    argument left, so no [TooFewArguments] is reported for it. *)
Theorem call_single_invalid_argument (x : operand) (Fun arg : ast.Expr)
    (Ellipsis : token.Pos) (c : checker) (xf : operand) (cf : checker)
    (sig : Signature) (xa : operand) (ca : checker) :
  calleeSignature x Fun c xf cf sig ->
  check_expr xf arg (afterEllipsis sig Fun Ellipsis cf) = (xa, ca) ->
  mode xa = invalid ->
  callArguments sig [arg] (passSliceOf sig Ellipsis) xf
    (afterEllipsis sig Fun Ellipsis cf) = Done (Len (params sig), xa) ca
  /\ call x Fun [arg] Ellipsis c
     = Done (callResult sig (ast.CallExpr Fun [arg] Ellipsis) xa) ca.
Proof.
  intros Callee Ev Invalid.
  assert (HA : callArguments sig [arg] (passSliceOf sig Ellipsis) xf
                 (afterEllipsis sig Fun Ellipsis cf) = Done (Len (params sig), xa) ca).
  { unfold callArguments.
    rewrite (bind_Done _ _ _ _ _ (lift_Done _ _ _ _ Ev)).
    rewrite Invalid. reflexivity. }
  split; [ exact HA | ].
  rewrite (call_callee _ _ _ _ _ _ _ _ Callee).
  rewrite (callChecked_Done _ _ _ _ _ _ _ _ _ _ HA).
  assert (E : (adjustedCount sig (Len (params sig)) <? Len (params sig)) = false).
  { apply Z.ltb_ge. unfold adjustedCount. destruct (isVariadic sig); lia. }
  rewrite E. reflexivity.
Qed.

Lemma positionalComponents_step (sig : Signature) (passSlice : bool)
    (arg : ast.Expr) (i : Z) (v v' : Var) (rest : list Var) (x : operand) :
  positionalComponents sig passSlice arg i (v :: v' :: rest) x
  = (x' <- argument sig i (component x arg v) false ;;
     positionalComponents sig passSlice arg (i + 1) (v' :: rest) x').
Proof. reflexivity. Qed.

(** The loop over the components of a tuple checks them as positional
    arguments, from any position on. *)
Lemma forComponents_positional (sig : Signature) (passSlice : bool) (arg : ast.Expr)
    (suf : list Var) :
  forall (pre : list Var) (x : operand) (c : checker),
    forComponents sig passSlice arg (pre ++ suf) (Len (pre ++ suf))
      (List.length suf) (Len pre) x c
    = positionalComponents sig passSlice arg (Len pre) suf x c.
Proof.
  induction suf as [ | v rest IH]; intros pre x c.
  - reflexivity.
  - cbn [forComponents List.length]. rewrite index_Len.
    change (set_typ (set_expr (set_mode x value) arg) (Var_typ v))
      with (component x arg v).
    destruct rest as [ | v' rest'].
    + assert (E : (Len pre =? Len (pre ++ [v]) - 1) = true).
      { apply Z.eqb_eq. rewrite Len_app. change (Len [v]) with 1. lia. }
      rewrite E, andb_true_r. cbn [forComponents positionalComponents].
      apply bind_ret_r.
    + assert (E : (Len pre =? Len (pre ++ v :: v' :: rest') - 1) = false).
      { apply Z.eqb_neq. rewrite Len_app.
        pose proof (Len_nonneg rest').
        change (v :: v' :: rest') with ([v; v'] ++ rest').
        rewrite Len_app. change (Len [v; v']) with 2. lia. }
      rewrite E, andb_false_r.
      rewrite positionalComponents_step. apply bind_ext. intros x' c'.
      specialize (IH (pre ++ [v]) x' c').
      rewrite <- app_assoc in IH. cbn [app] in IH.
      replace (Len (pre ++ [v])) with (Len pre + 1) in IH
        by (rewrite Len_app; reflexivity).
      exact IH.
Qed.

(** C3.  A call whose only argument evaluates to a tuple checks the
    components of the tuple, in order, as the positional arguments 0, 1, ...
    of the signature, the last of them alone carrying the spread; the arity
    check then counts the length of the tuple.  The tuple itself is not
    passed to [argument]. *)
Theorem call_tuple_argument (x : operand) (Fun arg : ast.Expr)
    (Ellipsis : token.Pos) (c : checker) (xf : operand) (cf : checker)
    (sig : Signature) (xa : operand) (ca : checker) (t : list Var) :
  calleeSignature x Fun c xf cf sig ->
  check_expr xf arg (afterEllipsis sig Fun Ellipsis cf) = (xa, ca) ->
  mode xa <> invalid ->
  typ xa = Tuple t ->
  call x Fun [arg] Ellipsis c
  = (x2 <- positionalComponents sig (passSliceOf sig Ellipsis) arg 0 t xa ;;
     callArity sig Fun (Len t) ;;;
     ret (callResult sig (ast.CallExpr Fun [arg] Ellipsis) x2)) ca.
Proof.
  intros Callee Ev Valid Tup.
  rewrite (call_callee _ _ _ _ _ _ _ _ Callee).
  unfold callChecked, callArguments.
  apply mode_eqb_neq in Valid.
  unfold bind at 1 2.
  rewrite (lift_Done _ _ _ _ Ev), Valid, Tup. cbn [negb].
  unfold Len at 1 2. rewrite Nat2Z.id.
  pose proof (forComponents_positional sig (passSliceOf sig Ellipsis) arg t [] xa ca) as E.
  cbn [app] in E. change (Len []) with 0 in E. unfold Len at 1 in E.
  unfold bind at 1 3. rewrite E.
  destruct (positionalComponents sig (passSliceOf sig Ellipsis) arg 0 t xa ca);
    reflexivity.
Qed.

(** The position of the ellipsis only shows in the expression the result
    operand is labelled with. *)
Lemma callChecked_ellipsis (sig : Signature) (Fun : ast.Expr) (Args : list ast.Expr)
    (Ellipsis : token.Pos) (passSlice : bool) (x : operand) (c : checker) :
  callChecked sig Fun Args Ellipsis passSlice x c
  = match callChecked sig Fun Args token.NoPos passSlice x c with
    | Done x' c' => Done (set_expr x' (ast.CallExpr Fun Args Ellipsis)) c'
    | Panic msg => Panic msg
    end.
Proof.
  unfold callChecked, bind.
  destruct (callArguments sig Args passSlice x c) as [[n x1] c1 | msg]; [ | reflexivity ].
  rewrite callArity_Done. reflexivity.
Qed.

Lemma index_beyond {A : Type} (l : list A) (i : Z) :
  Z.of_nat (List.length l) <= i -> index l i = None.
Proof.
  intros H. unfold index. destruct (i <? 0); [ reflexivity | ].
  apply nth_error_None. lia.
Qed.

Lemma bind_same {A B : Type} (m m' : M A) (k : A -> M B) (c : checker) :
  m c = m' c -> bind m k c = bind m' k c.
Proof. intros H. unfold bind. rewrite H. reflexivity. Qed.

(** Without spread, the loop of lines 72-77 evaluates and checks each
    argument expression; the count [n] plays no part. *)
Lemma rangeArgs_eachArgument (sig : Signature) (n : Z) (args : list ast.Expr) :
  forall (i : Z) (x : operand) (c : checker),
    rangeArgs sig false n i args x c = eachArgument sig i args x c.
Proof.
  induction args as [ | arg rest IH]; intros i x c.
  - reflexivity.
  - cbn [rangeArgs eachArgument]. unfold bind at 1 3, lift, evaluatedAndChecked.
    destruct (check_expr x arg c) as [xa ca].
    cbn [andb]. unfold bind.
    destruct (mode_eqb (mode xa) invalid); cbn [negb].
    + apply IH.
    + destruct (argument sig i xa false ca) as [x2 c2 | msg];
        [ apply IH | reflexivity ].
Qed.

(** Without spread, lines 47-78 evaluate and check the arguments as
    [argumentsWithoutSpread] says. *)
Lemma callArguments_without_spread (sig : Signature) (Args : list ast.Expr)
    (x : operand) (c : checker) :
  callArguments sig Args false x c = argumentsWithoutSpread sig Args x c.
Proof.
  unfold callArguments, argumentsWithoutSpread.
  assert (Loop :
    (x' <- rangeArgs sig false (Z.of_nat (List.length Args)) 0 Args x ;;
     ret (Z.of_nat (List.length Args), x')) c
    = (x' <- eachArgument sig 0 Args x ;;
       ret (Z.of_nat (List.length Args), x')) c).
  { apply bind_same. apply rangeArgs_eachArgument. }
  destruct Args as [ | arg [ | arg' rest]]; try exact Loop. clear Loop.
  unfold bind at 1, lift. destruct (check_expr x arg c) as [xa ca].
  destruct (mode_eqb (mode xa) invalid); cbn [negb]; [ reflexivity | ].
  destruct (typ xa); try reflexivity.
  apply bind_same.
  change (Z.to_nat (Len vars)) with (Z.to_nat (Z.of_nat (List.length vars))).
  rewrite Nat2Z.id.
  exact (forComponents_positional sig false arg vars [] xa ca).
Qed.

(** C8.  A call of a non-variadic signature written with a trailing spread
    reports [SpreadOnNonVariadic] and then runs the check of a call without
    spread ([passSlice] false), the outcome differing from that check's only
    in the expression the result operand is labelled with.  From the checker
    with that report on, every argument expression is evaluated by
    [check.expr] and, when it evaluated, checked by [argument] at its
    position without spread ([argumentsWithoutSpread]), which assigns it to
    the declared type of the parameter there or reports
    [TooManyArguments]; the arity check and the result operand follow as in
    any call. *)
Theorem call_spread_on_non_variadic (x : operand) (Fun : ast.Expr)
    (Args : list ast.Expr) (Ellipsis : token.Pos) (c : checker) (xf : operand)
    (cf : checker) (sig : Signature) :
  calleeSignature x Fun c xf cf sig ->
  isVariadic sig = false ->
  token.IsValid Ellipsis = true ->
  call x Fun Args Ellipsis c
  = callChecked sig Fun Args Ellipsis false xf
      (reported cf (spreadOnNonVariadic Fun Ellipsis))
  /\ call x Fun Args token.NoPos c
     = callChecked sig Fun Args token.NoPos false xf cf
  /\ call x Fun Args Ellipsis c
     = match callChecked sig Fun Args token.NoPos false xf
               (reported cf (spreadOnNonVariadic Fun Ellipsis)) with
       | Done x' c' => Done (set_expr x' (ast.CallExpr Fun Args Ellipsis)) c'
       | Panic msg => Panic msg
       end
  /\ (exists n x1 c1,
       callArguments sig Args false xf
         (reported cf (spreadOnNonVariadic Fun Ellipsis)) = Done (n, x1) c1
       /\ call x Fun Args Ellipsis c
          = Done (callResult sig (ast.CallExpr Fun Args Ellipsis) x1)
                 (if n <? Len (params sig)
                  then reported c1 (tooFewArguments Fun) else c1))
  /\ call x Fun Args Ellipsis c
     = (r <- argumentsWithoutSpread sig Args xf ;;
        let '(n, x1) := r in
        callArity sig Fun n ;;;
        ret (callResult sig (ast.CallExpr Fun Args Ellipsis) x1))
         (reported cf (spreadOnNonVariadic Fun Ellipsis))
  /\ call x Fun Args token.NoPos c
     = (r <- argumentsWithoutSpread sig Args xf ;;
        let '(n, x1) := r in
        callArity sig Fun n ;;;
        ret (callResult sig (ast.CallExpr Fun Args token.NoPos) x1)) cf
  /\ (exists n x1 c1,
        argumentsWithoutSpread sig Args xf
          (reported cf (spreadOnNonVariadic Fun Ellipsis)) = Done (n, x1) c1
        /\ call x Fun Args Ellipsis c
           = Done (callResult sig (ast.CallExpr Fun Args Ellipsis) x1)
                  (if n <? Len (params sig)
                   then reported c1 (tooFewArguments Fun) else c1))
  /\ (forall i xa c0, 0 <= i ->
        argument sig i xa false c0
        = match index (params sig) i with
          | Some v => assign xa (Var_typ v) c0
          | None => Done xa (reported c0 (tooManyArguments xa))
          end).
Proof.
  intros Callee NonVariadic Spread.
  assert (E1 : call x Fun Args Ellipsis c
               = callChecked sig Fun Args Ellipsis false xf
                   (reported cf (spreadOnNonVariadic Fun Ellipsis))).
  { rewrite (call_callee _ _ _ _ _ _ _ _ Callee).
    unfold passSliceOf, afterEllipsis. rewrite NonVariadic, Spread. reflexivity. }
  assert (E2 : call x Fun Args token.NoPos c
               = callChecked sig Fun Args token.NoPos false xf cf).
  { rewrite (call_callee _ _ _ _ _ _ _ _ Callee).
    unfold passSliceOf, afterEllipsis. reflexivity. }
  assert (WF : wfSignature sig = true)
    by (unfold wfSignature; rewrite NonVariadic; reflexivity).
  destruct (callArguments_returns sig Args false xf
              (reported cf (spreadOnNonVariadic Fun Ellipsis)) WF)
    as ([n x1] & c1 & HA).
  assert (E3 : call x Fun Args Ellipsis c
               = Done (callResult sig (ast.CallExpr Fun Args Ellipsis) x1)
                      (if n <? Len (params sig)
                       then reported c1 (tooFewArguments Fun) else c1)).
  { rewrite E1, (callChecked_Done _ _ _ _ _ _ _ _ _ _ HA).
    unfold adjustedCount. rewrite NonVariadic. reflexivity. }
  split; [ exact E1 | ].
  split; [ exact E2 | ].
  split; [ rewrite E1; apply callChecked_ellipsis | ].
  split; [ exists n, x1, c1; split; [ exact HA | exact E3 ] | ].
  split; [ rewrite E1; unfold callChecked; apply bind_same;
           apply callArguments_without_spread | ].
  split; [ rewrite E2; unfold callChecked; apply bind_same;
           apply callArguments_without_spread | ].
  split.
  - exists n, x1, c1. split; [ | exact E3 ].
    rewrite <- callArguments_without_spread. exact HA.
  - intros i xa c0 Hi. unfold argument. rewrite NonVariadic. cbn [andb].
    destruct (i <? Len (params sig)) eqn:Lt.
    + apply Z.ltb_lt in Lt.
      destruct (index_in_range (params sig) i) as [v Hv];
        [ unfold Len in Lt; lia | ].
      rewrite Hv. reflexivity.
    + apply Z.ltb_ge in Lt. rewrite index_beyond by exact Lt. reflexivity.
Qed.

End CallChecker.

(* ===================================================================== *)
(** ** The argument matcher                                               *)
(* ===================================================================== *)

Section ArgumentMatcher.
Context {K : Collaborators}.

(** The assignment of lines 153-155: the operand is what [check.assignment]
    leaves, and a failed assignment of an operand that is not invalid is
    reported. *)
Lemma assign_Done (x : operand) (T : Type_) (c : checker) (ok : bool)
    (x' : operand) (c' : checker) :
  check_assignment x T c = ((ok, x'), c') ->
  assign x T c
  = Done x' (if negb ok && negb (mode_eqb (mode x') invalid)
             then reported c' (argumentTypeMismatch x' T) else c').
Proof.
  intros H. unfold assign.
  rewrite (bind_Done _ _ _ _ _ (lift_Done _ _ _ _ H)).
  destruct (negb ok && negb (mode_eqb (mode x') invalid)); reflexivity.
Qed.

Lemma index_Some_range {A : Type} (l : list A) (i : Z) (v : A) :
  index l i = Some v -> 0 <= i < Z.of_nat (List.length l).
Proof.
  unfold index. destruct (i <? 0) eqn:E; [ discriminate | ].
  apply Z.ltb_ge in E. intros H.
  assert (Z.to_nat i < List.length l)%nat
    by (apply nth_error_Some; congruence).
  lia.
Qed.

(** C7.  Against a variadic signature whose variadic parameter has type
    [[]elt]: an argument without spread at or after the variadic slot is
    assigned to [elt]; an argument with spread is refused unless it stands
    at the last parameter slot and has a slice type, and is then assigned to
    the declared [[]elt], unconverted.  Against a signature that is not
    variadic, an argument at or after the parameter count is reported as
    [TooManyArguments] and left as it is.  An assignment that fails on an
    operand that is not invalid is reported as [ArgumentTypeMismatch]. *)
Theorem argument_variadic (sig : Signature) (i : Z) (x : operand) (c : checker) :
  0 <= i ->
  (isVariadic sig = true ->
   forall v elt,
     index (params sig) (Len (params sig) - 1) = Some v ->
     Var_typ v = Slice elt ->
     (Len (params sig) - 1 <= i ->
        argument sig i x false c = assign x elt c)
     /\ (i <> Len (params sig) - 1 ->
           argument sig i x true c
           = Done x (reported c (spreadPositionMismatch x)))
     /\ (i = Len (params sig) - 1 -> isSlice (typ x) = false ->
           argument sig i x true c
           = Done x (reported c (spreadTypeMismatch x (Slice elt))))
     /\ (i = Len (params sig) - 1 -> isSlice (typ x) = true ->
           argument sig i x true c = assign x (Slice elt) c))
  /\ (isVariadic sig = false -> Len (params sig) <= i ->
      forall passSlice,
        argument sig i x passSlice c = Done x (reported c (tooManyArguments x)))
  /\ (forall T ok x' c',
        check_assignment x T c = ((ok, x'), c') ->
        assign x T c
        = Done x' (if negb ok && negb (mode_eqb (mode x') invalid)
                   then reported c' (argumentTypeMismatch x' T) else c')).
Proof.
  intros Hi. split; [ | split ].
  - intros V v elt Hv Hs.
    pose proof (index_Some_range _ _ _ Hv) as Hn. fold (Len (params sig)) in Hn.
    repeat split.
    + intros Ge. unfold argument.
      assert (G : (i >=? Len (params sig) - 1) = true) by (apply Z.geb_le; lia).
      rewrite V, G. cbn [andb].
      destruct (i <? Len (params sig)) eqn:Lt.
      * apply Z.ltb_lt in Lt.
        replace i with (Len (params sig) - 1) by lia.
        rewrite Hv, Hs. reflexivity.
      * rewrite Hv, Hs. reflexivity.
    + intros Ne. unfold argument.
      assert (E : (i =? Len (params sig) - 1) = false) by (apply Z.eqb_neq; exact Ne).
      rewrite V, E. cbn [negb].
      destruct (i <? Len (params sig)) eqn:Lt.
      * apply Z.ltb_lt in Lt.
        destruct (index_in_range (params sig) i) as [w Hw];
          [ unfold Len in Lt; lia | ].
        rewrite Hw. reflexivity.
      * rewrite Hv. reflexivity.
    + intros -> NotSlice. unfold argument.
      assert (Lt : (Len (params sig) - 1 <? Len (params sig)) = true)
        by (apply Z.ltb_lt; lia).
      rewrite Lt, Hv, Hs, Z.eqb_refl. cbn [negb].
      destruct (typ x); try reflexivity. discriminate NotSlice.
    + intros -> IsSlice. unfold argument.
      assert (Lt : (Len (params sig) - 1 <? Len (params sig)) = true)
        by (apply Z.ltb_lt; lia).
      rewrite Lt, Hv, Hs, Z.eqb_refl. cbn [negb].
      destruct (typ x); try discriminate IsSlice. reflexivity.
  - intros V Ge passSlice. unfold argument.
    assert (Lt : (i <? Len (params sig)) = false) by (apply Z.ltb_ge; exact Ge).
    rewrite Lt, V. reflexivity.
  - intros T ok x' c'. apply assign_Done.
Qed.

End ArgumentMatcher.

(* ===================================================================== *)
(** ** The selector resolver                                              *)
(* ===================================================================== *)

Section SelectorResolver.
Context {K : Collaborators}.

Lemma selector_qualified (x : operand) (X Sel : ast.Expr) (c : checker)
    (pkg_ : Object) (scope : Scope) :
  qualifier c X = Some (pkg_, scope) ->
  selector x X Sel c = qualifiedIdent x X Sel pkg_ scope c.
Proof. intros H. unfold selector, bind, get_checker. rewrite H. reflexivity. Qed.

(** The object a scope yields for a name bears that name. *)
Lemma Lookup_name (s : Scope) (name : string) (o : Object) :
  Lookup s name = Some o -> Object_Name o = name.
Proof.
  destruct s as [parent entries]. cbn [Lookup]. intros H.
  apply find_some in H. destruct H as [_ H]. apply String.eqb_eq. exact H.
Qed.

(** Once the base is evaluated and the member found, the selector is a
    method expression or a regular selector, by the mode of the base. *)
Lemma selector_resolved (x : operand) (X Sel : ast.Expr) (c : checker)
    (xb : operand) (cb : checker) (obj : Object) (path : option (list Z))
    (indirect : bool) :
  resolves x X Sel c xb cb obj path indirect ->
  selector x X Sel c
  = (if mode_eqb (mode xb) typexpr
     then methodExpr xb (ast.SelectorExpr X Sel) (ast.Name Sel) obj indirect
     else regularSelector xb (ast.SelectorExpr X Sel) (ast.Name Sel) obj indirect)
      (recorded cb Sel (lookupResult (typ xb) obj path indirect)).
Proof.
  intros (Unqualified & Ev & NotInvalid & Found).
  unfold selector, bind at 1, get_checker at 1. rewrite Unqualified.
  unfold selectorExpr.
  rewrite (bind_Done _ _ _ _ _ (lift_Done _ _ _ _ Ev)).
  rewrite NotInvalid. unfold bind at 1, get_checker at 1.
  rewrite Found. reflexivity.
Qed.

(** C10.  An ordinary selector that resolves to a field yields an operand
    of mode [variable] with the type of the field, whatever the mode of the
    base operand: for a base of mode [value] as well. *)
Theorem selector_field (x : operand) (X Sel : ast.Expr) (c : checker)
    (xb : operand) (cb : checker) (v : Var) (path : option (list Z))
    (indirect : bool) :
  resolves x X Sel c xb cb (VarObj v) path indirect ->
  mode xb <> typexpr ->
  selector x X Sel c
  = Done {| mode := variable; expr := Some (ast.SelectorExpr X Sel);
            typ := Var_typ v; val := val xb |}
         (recorded cb Sel (lookupResult (typ xb) (VarObj v) path indirect)).
Proof.
  intros R NotType. rewrite (selector_resolved _ _ _ _ _ _ _ _ _ R).
  apply mode_eqb_neq in NotType. rewrite NotType. reflexivity.
Qed.

(** C4.  An ordinary selector that resolves to a method with a pointer
    receiver: when the lookup went through no indirection and the base is
    not a variable, [NotInMethodSet] is reported and the operand is invalid;
    when the base is a variable or the lookup went through an indirection,
    the operand has mode [value] and the type of the method. *)
Theorem selector_pointer_method (x : operand) (X Sel : ast.Expr) (c : checker)
    (xb : operand) (cb : checker) (name : string) (ftyp : Type_)
    (path : option (list Z)) (indirect : bool) :
  resolves x X Sel c xb cb (Func name ftyp) path indirect ->
  mode xb <> typexpr ->
  ptrRecv (Func name ftyp) = true ->
  (indirect = false -> mode xb <> variable ->
     selector x X Sel c
     = Done (invalidated xb (ast.SelectorExpr X Sel))
            (reported
               (recorded cb Sel (lookupResult (typ xb) (Func name ftyp) path indirect))
               (notInMethodSet X Sel (AOperand xb))))
  /\ (indirect = true \/ mode xb = variable ->
      debug && negb (methodSetAgrees (methodSetType xb) (pkg cb) (ast.Name Sel)
                       (Func name ftyp)) = false ->
      selector x X Sel c
      = Done {| mode := value; expr := Some (ast.SelectorExpr X Sel);
                typ := ftyp; val := val xb |}
             (recorded cb Sel (lookupResult (typ xb) (Func name ftyp) path indirect))).
Proof.
  intros R NotType Ptr. rewrite (selector_resolved _ _ _ _ _ _ _ _ _ R).
  apply mode_eqb_neq in NotType. rewrite NotType.
  unfold regularSelector. rewrite Ptr. split.
  - intros -> NotVar. apply mode_eqb_neq in NotVar. rewrite NotVar. reflexivity.
  - intros Reach Agree.
    assert (E : negb indirect && negb (mode_eqb (mode xb) variable) = false).
    { destruct Reach as [-> | V]; [ reflexivity | ].
      apply mode_eqb_eq in V. rewrite V. apply andb_false_r. }
    rewrite E. cbn [andb]. unfold bind at 1, get_checker at 1.
    cbn [pkg recorded]. rewrite Agree. reflexivity.
Qed.

(** C1, as the code has it.  A method expression whose member is a method
    with a pointer receiver: [NotInMethodSet] is reported, and the operand
    is invalid, exactly when the lookup went through no pointer indirection;
    when it did, the method expression is formed: mode [value], and the
    signature of the method with the receiver type as first parameter. *)
Theorem selector_method_expression (x : operand) (X Sel : ast.Expr) (c : checker)
    (xb : operand) (cb : checker) (name : string) (mtyp : Type_)
    (path : option (list Z)) (indirect : bool) :
  resolves x X Sel c xb cb (Func name mtyp) path indirect ->
  mode xb = typexpr ->
  ptrRecv (Func name mtyp) = true ->
  (indirect = false ->
     selector x X Sel c
     = Done (invalidated xb (ast.SelectorExpr X Sel))
            (reported
               (recorded cb Sel (lookupResult (typ xb) (Func name mtyp) path indirect))
               (notInMethodSet X Sel (AType (typ xb)))))
  /\ (indirect = true -> forall sig, mtyp = SignatureT sig ->
      selector x X Sel c
      = Done {| mode := value; expr := Some (ast.SelectorExpr X Sel);
                typ := methodExprType cb (typ xb) sig; val := val xb |}
             (recorded cb Sel (lookupResult (typ xb) (Func name mtyp) path indirect))).
Proof.
  intros R IsType Ptr. rewrite (selector_resolved _ _ _ _ _ _ _ _ _ R).
  rewrite IsType. cbn [mode_eqb]. unfold methodExpr. rewrite Ptr. split.
  - intros ->. reflexivity.
  - intros -> sig ->. reflexivity.
Qed.

(** C2, as the code has it.  A package-qualified selector whose member is
    missing from the scope of the package reports [UndeclaredPackageMember],
    whether its name is exported or not; one whose member is in the scope
    under an unexported name reports [UnexportedPackageMember].  Either way
    the selector returns, with an invalid operand. *)
Theorem selector_package_member (x : operand) (X Sel : ast.Expr) (c : checker)
    (pkg_ : Object) (scope : Scope) :
  qualifier c X = Some (pkg_, scope) ->
  (Lookup scope (ast.Name Sel) = None ->
     selector x X Sel c
     = Done (invalidated x (ast.SelectorExpr X Sel))
            (reported (recorded c X pkg_) (undeclaredPackageMember X Sel)))
  /\ (forall exp,
        Lookup scope (ast.Name Sel) = Some exp ->
        IsExported (ast.Name Sel) = false ->
        selector x X Sel c
        = Done (invalidated x (ast.SelectorExpr X Sel))
               (reported (recorded c X pkg_) (unexportedPackageMember X Sel))).
Proof.
  intros Q. rewrite (selector_qualified _ _ _ _ _ _ Q). unfold qualifiedIdent.
  split.
  - intros Missing. unfold bind at 1. cbn [recordObject].
    rewrite Missing. reflexivity.
  - intros exp Found Unexported. unfold bind at 1. cbn [recordObject].
    rewrite Found, (Lookup_name _ _ _ Found), Unexported. reflexivity.
Qed.

End SelectorResolver.

(* ===================================================================== *)
(** ** The sample package, checked                                        *)
(* ===================================================================== *)

Section Sample.
Import sample.
#[local] Existing Instance collaborators.

(** [f(1, "x", "y")]: both trailing arguments are assigned to [string]. *)
Example f_two_strings :
  kinds (call x0 (id "f") [lit 1; lit 2; lit 2] 0 check0) = []
  /\ result (call x0 (id "f") [lit 1; lit 2; lit 2] 0 check0)
     = Some (novalue, string_).
Proof. split; reflexivity. Qed.

(** [f(1, someSliceOfString...)] passes; [f(1, someSliceOfString)] does
    not: a slice is not a [string]. *)
Example f_slice :
  kinds (call x0 (id "f") [lit 1; lit 3] 9 check0) = []
  /\ kinds (call x0 (id "f") [lit 1; lit 3] 0 check0) = [ArgumentTypeMismatch].
Proof. split; reflexivity. Qed.

(** [h(g())] with [g() (int, string)] passes; [one(g())] has one argument
    too many. *)
Example tuple_unpacked :
  kinds (call x0 (id "h") [g_call] 0 check0) = []
  /\ kinds (call x0 (id "one") [g_call] 0 check0) = [TooManyArguments].
Proof. split; reflexivity. Qed.

(** [f()] lacks the argument for [a]; [f(1)] omits the variadic ones. *)
Example f_arity :
  kinds (call x0 (id "f") [] 0 check0) = [TooFewArguments]
  /\ kinds (call x0 (id "f") [lit 1] 0 check0) = [].
Proof. split; reflexivity. Qed.

(** The callee [h] of the sample is a function value. *)
Lemma h_callee :
  calleeSignature x0 (id "h") check0 (evaluated (id "h")) check0 h_sig.
Proof. repeat split. Qed.

(** [h(1, "x")] yields a value of type [int]. *)
Lemma call_result_operand_witness :
  calleeSignature x0 (id "h") check0 (evaluated (id "h")) check0 h_sig
  /\ wfSignature h_sig = true
  /\ exists x' c',
       call x0 (id "h") [lit 1; lit 2] 0 check0 = Done x' c'
       /\ expr x' = Some (ast.CallExpr (id "h") [lit 1; lit 2] 0)
       /\ (results h_sig = [] -> mode x' = novalue)
       /\ (forall r, results h_sig = [r] -> mode x' = value /\ typ x' = Var_typ r)
       /\ (2 <= Len (results h_sig) ->
             mode x' = value /\ typ x' = Tuple (results h_sig)).
Proof.
  split; [ exact h_callee | split; [ reflexivity | ] ].
  exact (call_result_operand x0 (id "h") [lit 1; lit 2] 0 check0
           (evaluated (id "h")) check0 h_sig h_callee eq_refl).
Defined.

(** [h(1)]: one argument for two parameters. *)
Lemma call_arity_check_witness :
  callArguments h_sig [lit 1] (passSliceOf h_sig 0) (evaluated (id "h"))
    (afterEllipsis h_sig (id "h") 0 check0) = Done (1, evaluated (lit 1)) check0
  /\ 1 = consideredArguments h_sig [lit 1] (evaluated (lit 1))
  /\ exists c',
       call x0 (id "h") [lit 1] 0 check0
       = Done (callResult h_sig (ast.CallExpr (id "h") [lit 1] 0) (evaluated (lit 1))) c'
       /\ (adjustedCount h_sig 1 < Len (params h_sig) ->
             c' = reported check0 (tooFewArguments (id "h")))
       /\ (Len (params h_sig) <= adjustedCount h_sig 1 -> c' = check0).
Proof.
  split; [ reflexivity | ].
  exact (call_arity_check x0 (id "h") [lit 1] 0 check0 (evaluated (id "h")) check0
           h_sig 1 (evaluated (lit 1)) check0 h_callee eq_refl).
Defined.

(** [h(undefined)]: the argument fails, nothing more is reported. *)
Lemma call_single_invalid_argument_witness :
  check_expr (evaluated (id "h")) (id "undefined")
    (afterEllipsis h_sig (id "h") 0 check0) = (evaluated (id "undefined"), check0)
  /\ mode (evaluated (id "undefined")) = invalid
  /\ callArguments h_sig [id "undefined"] (passSliceOf h_sig 0) (evaluated (id "h"))
       (afterEllipsis h_sig (id "h") 0 check0)
     = Done (Len (params h_sig), evaluated (id "undefined")) check0
  /\ call x0 (id "h") [id "undefined"] 0 check0
     = Done (callResult h_sig (ast.CallExpr (id "h") [id "undefined"] 0)
               (evaluated (id "undefined"))) check0.
Proof.
  split; [ reflexivity | split; [ reflexivity | ] ].
  exact (call_single_invalid_argument x0 (id "h") (id "undefined") 0 check0
           (evaluated (id "h")) check0 h_sig (evaluated (id "undefined")) check0
           h_callee eq_refl eq_refl).
Defined.

(** [h(g())]: the two results of [g] are the two arguments of [h]. *)
Lemma call_tuple_argument_witness :
  typ (evaluated g_call) = Tuple [var "" int_; var "" string_]
  /\ call x0 (id "h") [g_call] 0 check0
     = (x2 <- positionalComponents h_sig (passSliceOf h_sig 0) g_call 0
                [var "" int_; var "" string_] (evaluated g_call) ;;
        callArity h_sig (id "h") (Len [var "" int_; var "" string_]) ;;;
        ret (callResult h_sig (ast.CallExpr (id "h") [g_call] 0) x2))%checker check0.
Proof.
  split; [ reflexivity | ].
  apply (call_tuple_argument x0 (id "h") g_call 0 check0 (evaluated (id "h")) check0
           h_sig (evaluated g_call) check0 [var "" int_; var "" string_] h_callee).
  - reflexivity.
  - discriminate.
  - reflexivity.
Defined.

(** [h("x", 1...)]: the spread is reported, then ["x"] and [1] are
    evaluated and checked against [int] and [string], which neither fits. *)
Lemma call_spread_on_non_variadic_witness :
  isVariadic h_sig = false
  /\ token.IsValid 7 = true
  /\ kinds (call x0 (id "h") [lit 2; lit 1] 7 check0)
     = [SpreadOnNonVariadic; ArgumentTypeMismatch; ArgumentTypeMismatch]
  /\ call x0 (id "h") [lit 2; lit 1] 7 check0
     = callChecked h_sig (id "h") [lit 2; lit 1] 7 false (evaluated (id "h"))
         (reported check0 (spreadOnNonVariadic (id "h") 7))
  /\ call x0 (id "h") [lit 2; lit 1] token.NoPos check0
     = callChecked h_sig (id "h") [lit 2; lit 1] token.NoPos false
         (evaluated (id "h")) check0
  /\ call x0 (id "h") [lit 2; lit 1] 7 check0
     = match callChecked h_sig (id "h") [lit 2; lit 1] token.NoPos false
               (evaluated (id "h"))
               (reported check0 (spreadOnNonVariadic (id "h") 7)) with
       | Done x' c' => Done (set_expr x' (ast.CallExpr (id "h") [lit 2; lit 1] 7)) c'
       | Panic msg => Panic msg
       end
  /\ (exists n x1 c1,
       callArguments h_sig [lit 2; lit 1] false (evaluated (id "h"))
         (reported check0 (spreadOnNonVariadic (id "h") 7)) = Done (n, x1) c1
       /\ call x0 (id "h") [lit 2; lit 1] 7 check0
          = Done (callResult h_sig (ast.CallExpr (id "h") [lit 2; lit 1] 7) x1)
                 (if n <? Len (params h_sig)
                  then reported c1 (tooFewArguments (id "h")) else c1))
  /\ call x0 (id "h") [lit 2; lit 1] 7 check0
     = (r <- argumentsWithoutSpread h_sig [lit 2; lit 1] (evaluated (id "h")) ;;
        let '(n, x1) := r in
        callArity h_sig (id "h") n ;;;
        ret (callResult h_sig (ast.CallExpr (id "h") [lit 2; lit 1] 7) x1))%checker
         (reported check0 (spreadOnNonVariadic (id "h") 7))
  /\ call x0 (id "h") [lit 2; lit 1] token.NoPos check0
     = (r <- argumentsWithoutSpread h_sig [lit 2; lit 1] (evaluated (id "h")) ;;
        let '(n, x1) := r in
        callArity h_sig (id "h") n ;;;
        ret (callResult h_sig (ast.CallExpr (id "h") [lit 2; lit 1] token.NoPos) x1))%checker
         check0
  /\ (exists n x1 c1,
        argumentsWithoutSpread h_sig [lit 2; lit 1] (evaluated (id "h"))
          (reported check0 (spreadOnNonVariadic (id "h") 7)) = Done (n, x1) c1
        /\ call x0 (id "h") [lit 2; lit 1] 7 check0
           = Done (callResult h_sig (ast.CallExpr (id "h") [lit 2; lit 1] 7) x1)
                  (if n <? Len (params h_sig)
                   then reported c1 (tooFewArguments (id "h")) else c1))
  /\ (forall i xa c0, 0 <= i ->
        argument h_sig i xa false c0
        = match index (params h_sig) i with
          | Some v => assign xa (Var_typ v) c0
          | None => Done xa (reported c0 (tooManyArguments xa))
          end).
Proof.
  split; [ reflexivity | split; [ reflexivity | split; [ reflexivity | ] ] ].
  exact (call_spread_on_non_variadic x0 (id "h") [lit 2; lit 1] 7 check0
           (evaluated (id "h")) check0 h_sig h_callee eq_refl eq_refl).
Defined.

(** Arguments of [f(a int, b ...string)] and of [h(a int, b string)]:
    ["y"] at position 2, a slice with and without spread at position 1, a
    spread at position 0, and a third argument for [h]. *)
Lemma argument_variadic_witness :
  argument f_sig 2 (evaluated (lit 2)) false check0
  = assign (evaluated (lit 2)) string_ check0
  /\ argument f_sig 1 (evaluated (lit 3)) false check0
     = assign (evaluated (lit 3)) string_ check0
  /\ argument f_sig 1 (evaluated (lit 3)) true check0
     = assign (evaluated (lit 3)) (Slice string_) check0
  /\ argument f_sig 1 (evaluated (lit 2)) true check0
     = Done (evaluated (lit 2))
         (reported check0 (spreadTypeMismatch (evaluated (lit 2)) (Slice string_)))
  /\ argument f_sig 0 (evaluated (lit 3)) true check0
     = Done (evaluated (lit 3))
         (reported check0 (spreadPositionMismatch (evaluated (lit 3))))
  /\ argument h_sig 2 (evaluated (lit 1)) false check0
     = Done (evaluated (lit 1)) (reported check0 (tooManyArguments (evaluated (lit 1)))).
Proof.
  pose proof (proj1 (argument_variadic f_sig 2 (evaluated (lit 2)) check0 ltac:(lia))
                eq_refl (var "b" (Slice string_)) string_ eq_refl eq_refl) as After.
  pose proof (proj1 (argument_variadic f_sig 1 (evaluated (lit 3)) check0 ltac:(lia))
                eq_refl (var "b" (Slice string_)) string_ eq_refl eq_refl) as Slot.
  pose proof (proj1 (argument_variadic f_sig 1 (evaluated (lit 2)) check0 ltac:(lia))
                eq_refl (var "b" (Slice string_)) string_ eq_refl eq_refl) as Str.
  pose proof (proj1 (argument_variadic f_sig 0 (evaluated (lit 3)) check0 ltac:(lia))
                eq_refl (var "b" (Slice string_)) string_ eq_refl eq_refl) as First.
  pose proof (proj1 (proj2 (argument_variadic h_sig 2 (evaluated (lit 1)) check0
                              ltac:(lia)))) as Fixed.
  destruct After as (After & _).
  destruct Slot as (Slot & _ & _ & Spread).
  destruct Str as (_ & _ & NotSlice & _).
  destruct First as (_ & Position & _).
  refine (conj (After _) (conj (Slot _) (conj (Spread eq_refl eq_refl)
            (conj (NotSlice eq_refl eq_refl) (conj (Position _) (Fixed eq_refl _ false))))));
    cbn; lia.
Defined.

(** The selectors [mk().x], [mk().M], [v.M], [T.M] and [( *T ).M] of the
    sample resolve. *)
Lemma mk_x_resolves :
  resolves x0 mk_call (id "x") check0 (evaluated mk_call) check0
    (VarObj (var "x" int_)) (Some [0]) false.
Proof. repeat split. Qed.

Lemma mk_M_resolves :
  resolves x0 mk_call (id "M") check0 (evaluated mk_call) check0
    (Func "M" (SignatureT M_sig)) (Some [0]) false.
Proof. repeat split. Qed.

Lemma v_M_resolves :
  resolves x0 (id "v") (id "M") check0 (evaluated (id "v")) check0
    (Func "M" (SignatureT M_sig)) (Some [0]) false.
Proof. repeat split. Qed.

Lemma T_M_resolves :
  resolves x0 (id "T") (id "M") check0 (evaluated (id "T")) check0
    (Func "M" (SignatureT M_sig)) (Some [0]) false.
Proof. repeat split. Qed.

Lemma pointer_T_M_resolves :
  resolves x0 (lit 4) (id "M") check0 (evaluated (lit 4)) check0
    (Func "M" (SignatureT M_sig)) (Some [0]) true.
Proof. repeat split. Qed.

(** [mk().x]: a field of a value that is not addressable is a variable. *)
Lemma selector_field_witness :
  mode (evaluated mk_call) = value
  /\ selector x0 mk_call (id "x") check0
     = Done {| mode := variable; expr := Some (ast.SelectorExpr mk_call (id "x"));
               typ := int_; val := None |}
            (recorded check0 (id "x") (VarObj (var "x" int_))).
Proof.
  split; [ reflexivity | ].
  apply (selector_field x0 mk_call (id "x") check0 (evaluated mk_call) check0
           (var "x" int_) (Some [0]) false mk_x_resolves).
  discriminate.
Defined.

(** [mk().M] is refused, [v.M] is a method value. *)
Lemma selector_pointer_method_witness :
  ptrRecv M_ = true
  /\ selector x0 mk_call (id "M") check0
     = Done (invalidated (evaluated mk_call) (ast.SelectorExpr mk_call (id "M")))
            (reported (recorded check0 (id "M") M_)
               (notInMethodSet mk_call (id "M") (AOperand (evaluated mk_call))))
  /\ selector x0 (id "v") (id "M") check0
     = Done {| mode := value; expr := Some (ast.SelectorExpr (id "v") (id "M"));
               typ := SignatureT M_sig; val := None |}
            (recorded check0 (id "M") M_).
Proof.
  split; [ reflexivity | split ].
  - apply (proj1 (selector_pointer_method x0 mk_call (id "M") check0
                    (evaluated mk_call) check0 "M"%string (SignatureT M_sig)
                    (Some [0]) false mk_M_resolves ltac:(discriminate) eq_refl)).
    + reflexivity.
    + discriminate.
  - apply (proj2 (selector_pointer_method x0 (id "v") (id "M") check0
                    (evaluated (id "v")) check0 "M"%string (SignatureT M_sig)
                    (Some [0]) false v_M_resolves ltac:(discriminate) eq_refl)).
    + right. reflexivity.
    + reflexivity.
Defined.

(** [T.M] is refused, [( *T ).M] is a function of a [*T] and an [int]. *)
Lemma selector_method_expression_witness :
  ptrRecv M_ = true
  /\ mode (evaluated (id "T")) = typexpr
  /\ mode (evaluated (lit 4)) = typexpr
  /\ selector x0 (id "T") (id "M") check0
     = Done (invalidated (evaluated (id "T")) (ast.SelectorExpr (id "T") (id "M")))
            (reported (recorded check0 (id "M") M_)
               (notInMethodSet (id "T") (id "M") (AType T)))
  /\ selector x0 (lit 4) (id "M") check0
     = Done {| mode := value; expr := Some (ast.SelectorExpr (lit 4) (id "M"));
               typ := methodExprType check0 (Pointer T) M_sig; val := None |}
            (recorded check0 (id "M") M_).
Proof.
  split; [ reflexivity | split; [ reflexivity | split; [ reflexivity | split ] ] ].
  - apply (proj1 (selector_method_expression x0 (id "T") (id "M") check0
                    (evaluated (id "T")) check0 "M"%string (SignatureT M_sig)
                    (Some [0]) false T_M_resolves eq_refl eq_refl)).
    reflexivity.
  - apply (proj2 (selector_method_expression x0 (lit 4) (id "M") check0
                    (evaluated (lit 4)) check0 "M"%string (SignatureT M_sig)
                    (Some [0]) true pointer_T_M_resolves eq_refl eq_refl)).
    + reflexivity.
    + reflexivity.
Defined.

(** C1 as the specification states it fails on [( *T ).M] and on [T.M]:
    the lookup of [M] from [*T] goes through an indirection and the method
    expression is formed, without a diagnostic; the lookup from [T] goes
    through none and [NotInMethodSet] is reported. *)
Lemma method_expression_counterexample :
  ptrRecv M_ = true
  /\ mode (evaluated (lit 4)) = typexpr
  /\ LookupFieldOrMethod (Pointer T) "main"%string "M"%string = (Some M_, Some [0], true)
  /\ result (selector x0 (lit 4) (id "M") check0)
     = Some (value, methodExprType check0 (Pointer T) M_sig)
  /\ kinds (selector x0 (lit 4) (id "M") check0) = []
  /\ mode (evaluated (id "T")) = typexpr
  /\ LookupFieldOrMethod T "main"%string "M"%string = (Some M_, Some [0], false)
  /\ result (selector x0 (id "T") (id "M") check0) = Some (invalid, T)
  /\ kinds (selector x0 (id "T") (id "M") check0) = [NotInMethodSet].
Proof. repeat split. Qed.

(** [lib.missing] and [lib.hidden]. *)
Lemma selector_package_member_witness :
  qualifier check0 (id "lib") = Some (lib, lib_scope)
  /\ selector x0 (id "lib") (id "missing") check0
     = Done (invalidated x0 (ast.SelectorExpr (id "lib") (id "missing")))
            (reported (recorded check0 (id "lib") lib)
               (undeclaredPackageMember (id "lib") (id "missing")))
  /\ selector x0 (id "lib") (id "hidden") check0
     = Done (invalidated x0 (ast.SelectorExpr (id "lib") (id "hidden")))
            (reported (recorded check0 (id "lib") lib)
               (unexportedPackageMember (id "lib") (id "hidden"))).
Proof.
  split; [ reflexivity | split ].
  - apply (proj1 (selector_package_member x0 (id "lib") (id "missing") check0
                    lib lib_scope eq_refl)).
    reflexivity.
  - apply (proj2 (selector_package_member x0 (id "lib") (id "hidden") check0
                    lib lib_scope eq_refl) (TypeName "hidden" T)).
    + reflexivity.
    + reflexivity.
Defined.

(** C2 as the specification states it fails on [lib.missing]: the name is
    not exported, the package does not declare it, and the diagnostic is
    [UndeclaredPackageMember], not [UnexportedPackageMember]. *)
Lemma package_member_counterexample :
  qualifier check0 (id "lib") = Some (lib, lib_scope)
  /\ IsExported "missing"%string = false
  /\ Lookup lib_scope "missing"%string = None
  /\ kinds (selector x0 (id "lib") (id "missing") check0) = [UndeclaredPackageMember]
  /\ result (selector x0 (id "lib") (id "missing") check0)
     = Some (invalid, Basic "invalid"%string).
Proof. repeat split. Qed.

End Sample.

(* ===================================================================== *)
(** ** More of the call checker                                           *)
(* ===================================================================== *)

Section CallPaths.
Context {K : Collaborators}.

Lemma exprEach_evalEach (args : list ast.Expr) :
  forall (x : operand) (c : checker),
    exprEach args x c
    = Done (fst (evalEach args (x, c))) (snd (evalEach args (x, c))).
Proof.
  induction args as [ | arg rest IH]; intros x c.
  - reflexivity.
  - cbn [exprEach]. destruct (check_expr x arg c) as [x1 c1] eqn:Ev.
    rewrite (bind_Done _ _ _ _ _ (lift_Done _ _ _ _ Ev)), IH.
    unfold evalEach. cbn [fold_left fst snd]. rewrite Ev. reflexivity.
Qed.

(** X1.  A call whose callee fails to evaluate evaluates every argument,
    left to right, each on the operand and checker the one before left; it
    reports nothing itself, checks no argument against any parameter, and
    yields an invalid operand labelled with the call. *)
Theorem call_invalid_callee (x : operand) (Fun : ast.Expr) (Args : list ast.Expr)
    (Ellipsis : token.Pos) (c : checker) (xf : operand) (cf : checker) :
  check_exprOrType x Fun c = (xf, cf) ->
  mode xf = invalid ->
  call x Fun Args Ellipsis c
  = Done (invalidated (fst (evalEach Args (xf, cf)))
            (ast.CallExpr Fun Args Ellipsis))
         (snd (evalEach Args (xf, cf))).
Proof.
  intros Ev Invalid. unfold call.
  rewrite (bind_Done _ _ _ _ _ (lift_Done _ _ _ _ Ev)), Invalid. cbn [mode_eqb].
  rewrite (bind_Done _ _ _ _ _ (exprEach_evalEach Args xf cf)). reflexivity.
Qed.

(** X2.  A call without arguments of a function value evaluates nothing
    more; it is short of arguments unless the signature has no parameter, or
    is variadic with the variadic parameter alone. *)
Theorem call_no_arguments (x : operand) (Fun : ast.Expr) (Ellipsis : token.Pos)
    (c : checker) (xf : operand) (cf : checker) (sig : Signature) :
  calleeSignature x Fun c xf cf sig ->
  (Len (params sig) = 0 \/ (isVariadic sig = true /\ Len (params sig) = 1) ->
     call x Fun [] Ellipsis c
     = Done (callResult sig (ast.CallExpr Fun [] Ellipsis) xf)
            (afterEllipsis sig Fun Ellipsis cf))
  /\ (2 <= Len (params sig) \/ (isVariadic sig = false /\ Len (params sig) = 1) ->
      call x Fun [] Ellipsis c
      = Done (callResult sig (ast.CallExpr Fun [] Ellipsis) xf)
             (reported (afterEllipsis sig Fun Ellipsis cf) (tooFewArguments Fun))).
Proof.
  intros Callee. rewrite (call_callee _ _ _ _ _ _ _ _ Callee).
  assert (HA : callArguments sig [] (passSliceOf sig Ellipsis) xf
                 (afterEllipsis sig Fun Ellipsis cf)
               = Done (0, xf) (afterEllipsis sig Fun Ellipsis cf)) by reflexivity.
  rewrite (callChecked_Done _ _ _ _ _ _ _ _ _ _ HA).
  unfold adjustedCount. split; intros H.
  - assert (E : ((if isVariadic sig then 0 + 1 else 0) <? Len (params sig)) = false).
    { apply Z.ltb_ge. destruct H as [H | [V H]]; [ | rewrite V ];
        destruct (isVariadic sig); lia. }
    rewrite E. reflexivity.
  - assert (E : ((if isVariadic sig then 0 + 1 else 0) <? Len (params sig)) = true).
    { apply Z.ltb_lt. destruct H as [H | [V H]]; [ | rewrite V ];
        destruct (isVariadic sig); lia. }
    rewrite E. reflexivity.
Qed.

(** X3.  A single argument that evaluates to one value is checked as the
    general loop over the arguments would check it: the special case of one
    argument differs from the loop only for a tuple and for a failed
    argument. *)
Theorem call_single_value_as_loop (sig : Signature) (arg : ast.Expr)
    (passSlice : bool) (x : operand) (c : checker) (xa : operand) (ca : checker) :
  check_expr x arg c = (xa, ca) ->
  mode xa <> invalid ->
  (forall t, typ xa <> Tuple t) ->
  callArguments sig [arg] passSlice x c
  = (x' <- rangeArgs sig passSlice 1 0 [arg] x ;; ret (1, x')) c
  /\ callArguments sig [arg] passSlice x c
     = (x' <- argument sig 0 xa passSlice ;; ret (1, x')) ca.
Proof.
  intros Ev Valid NotTuple. apply mode_eqb_neq in Valid.
  assert (E : callArguments sig [arg] passSlice x c
              = (x' <- argument sig 0 xa passSlice ;; ret (1, x')) ca).
  { unfold callArguments.
    rewrite (bind_Done _ _ _ _ _ (lift_Done _ _ _ _ Ev)), Valid. cbn [negb].
    destruct (typ xa) eqn:T; try reflexivity.
    exfalso. exact (NotTuple vars eq_refl). }
  split; [ | exact E ].
  rewrite E. cbn [rangeArgs]. unfold bind, lift. rewrite Ev, Valid. cbn [negb].
  change (0 =? 1 - 1) with true. rewrite andb_true_r.
  destruct (argument sig 0 xa passSlice ca); reflexivity.
Qed.

End CallPaths.

(* ===================================================================== *)
(** ** What the checks leave of the checker                               *)
(* ===================================================================== *)

Section FrameRules.
Context {K : Collaborators}.
Variable allowed : ErrorKind -> bool.
Variable P : checker -> Prop.
Hypothesis F : Frame allowed P.

Lemma ensures_ret {A : Type} (a : A) (c : checker) : P c -> ensures (ret a) c P.
Proof. intros H a' c' E. unfold ret in E. injection E as _ <-. exact H. Qed.

Lemma ensures_bind {A B : Type} (m : M A) (k : A -> M B) (c : checker) :
  ensures m c P ->
  (forall a c1, P c1 -> ensures (k a) c1 P) ->
  ensures (bind m k) c P.
Proof.
  intros Hm Hk b c' E. apply bind_inv in E. destruct E as (a & c1 & E1 & E2).
  exact (Hk a c1 (Hm a c1 E1) b c' E2).
Qed.

Lemma ensures_lift {A : Type} (f : checker -> A * checker) (c : checker) :
  P (snd (f c)) -> ensures (lift f) c P.
Proof.
  intros H a c' E. unfold lift in E. destruct (f c) as [a1 c1].
  injection E as _ <-. exact H.
Qed.

Lemma ensures_report (d : Diag) (c : checker) :
  allowed (d_kind d) = true -> P c -> ensures (report d) c P.
Proof.
  intros Ok H a c' E. unfold report in E. injection E as _ <-.
  exact (frame_report _ _ F c d Ok H).
Qed.

Lemma ensures_recordObject (id : ast.Expr) (obj : Object) (c : checker) :
  Records P -> P c -> ensures (recordObject id obj) c P.
Proof.
  intros R H a c' E. unfold recordObject in E. injection E as _ <-.
  exact (R c id obj H).
Qed.

Lemma ensures_panic {A : Type} (msg : string) (c : checker) :
  ensures (@panic A msg) c P.
Proof. intros a c' E. discriminate E. Qed.

Lemma ensures_report_ret {A : Type} (d : Diag) (a : A) (c : checker) :
  allowed (d_kind d) = true -> P c -> ensures (report d ;;; ret a) c P.
Proof.
  intros Ok H. apply ensures_bind; [ apply ensures_report; assumption | ].
  intros _ c1 H1. apply ensures_ret. exact H1.
Qed.

Lemma assign_ensures (x : operand) (T : Type_) (c : checker) :
  allowed ArgumentTypeMismatch = true -> P c -> ensures (assign x T) c P.
Proof.
  intros Ok H. unfold assign. apply ensures_bind.
  - apply ensures_lift. apply (keeps_assignment _ (frame_keeps _ _ F)). exact H.
  - intros [ok x'] c1 H1.
    destruct (negb ok && negb (mode_eqb (mode x') invalid)).
    + apply ensures_report_ret; assumption.
    + apply ensures_ret. exact H1.
Qed.

(** Whatever [argument] does at position [i], it reports only the kinds of
    that position. *)
Lemma argument_ensures (sig : Signature) (i : Z) (x : operand) (passSlice : bool)
    (c : checker) :
  (forall k, argumentReports sig i k = true -> allowed k = true) ->
  P c -> ensures (argument sig i x passSlice) c P.
Proof.
  intros Incl H. unfold argument.
  assert (Inside : negb (isVariadic sig) && (Len (params sig) <=? i) = false ->
                   forall T,
                     ensures
                       (if passSlice
                        then if negb (i =? Len (params sig) - 1)
                             then errorf (pos x) SpreadPositionMismatch [] ;;; ret x
                             else match typ x with
                                  | Slice _ => assign x T
                                  | _ => errorf (pos x) SpreadTypeMismatch
                                           [AOperand x; AType T] ;;; ret x
                                  end
                        else if isVariadic sig && (i >=? Len (params sig) - 1)
                             then match T with
                                  | Slice elt => assign x elt
                                  | _ => panic "interface conversion: Type is not *Slice"
                                  end
                             else assign x T) c P).
  { intros In T.
    assert (A1 : allowed SpreadPositionMismatch = true)
      by (apply Incl; unfold argumentReports; rewrite In; reflexivity).
    assert (A2 : allowed SpreadTypeMismatch = true)
      by (apply Incl; unfold argumentReports; rewrite In; reflexivity).
    assert (A3 : allowed ArgumentTypeMismatch = true)
      by (apply Incl; unfold argumentReports; rewrite In; reflexivity).
    destruct passSlice.
    - destruct (negb (i =? Len (params sig) - 1)).
      + apply ensures_report_ret; assumption.
      + destruct (typ x); try (apply assign_ensures; assumption);
          apply ensures_report_ret; assumption.
    - destruct (isVariadic sig && (i >=? Len (params sig) - 1)).
      + destruct T; try apply ensures_panic. apply assign_ensures; assumption.
      + apply assign_ensures; assumption. }
  destruct (i <? Len (params sig)) eqn:Lt.
  - assert (In : negb (isVariadic sig) && (Len (params sig) <=? i) = false).
    { apply Z.ltb_lt in Lt. apply andb_false_iff. right. apply Z.leb_gt. exact Lt. }
    destruct (index (params sig) i); [ apply Inside; exact In | apply ensures_panic ].
  - destruct (isVariadic sig) eqn:V.
    + destruct (index (params sig) (Len (params sig) - 1));
        [ apply Inside; reflexivity | apply ensures_panic ].
    + apply ensures_report_ret; [ | exact H ].
      apply Incl. unfold argumentReports. rewrite V. apply Z.ltb_ge in Lt.
      apply Z.leb_le in Lt. cbn [negb andb d_kind]. rewrite Lt. reflexivity.
Qed.

Lemma forComponents_ensures (sig : Signature) (passSlice : bool) (arg : ast.Expr)
    (t : list Var) (n : Z) (k : nat) :
  forall (i : Z) (x : operand) (c : checker),
    (forall j, i <= j < i + Z.of_nat k ->
       forall kd, argumentReports sig j kd = true -> allowed kd = true) ->
    P c -> ensures (forComponents sig passSlice arg t n k i x) c P.
Proof.
  induction k as [ | k IH]; intros i x c Incl H; cbn [forComponents].
  - apply ensures_ret. exact H.
  - destruct (index t i); [ | apply ensures_panic ].
    apply ensures_bind.
    + apply argument_ensures; [ apply Incl; lia | exact H ].
    + intros x1 c1 H1. apply IH; [ | exact H1 ].
      intros j Hj. apply Incl. lia.
Qed.

Lemma rangeArgs_ensures (sig : Signature) (passSlice : bool) (n : Z)
    (args : list ast.Expr) :
  forall (i : Z) (x : operand) (c : checker),
    (forall j, i <= j < i + Z.of_nat (List.length args) ->
       forall kd, argumentReports sig j kd = true -> allowed kd = true) ->
    P c -> ensures (rangeArgs sig passSlice n i args x) c P.
Proof.
  induction args as [ | arg rest IH]; intros i x c Incl H; cbn [rangeArgs].
  - apply ensures_ret. exact H.
  - cbn [List.length] in Incl. apply ensures_bind.
    + apply ensures_lift. apply (keeps_expr _ (frame_keeps _ _ F)). exact H.
    + intros x1 c1 H1. apply ensures_bind.
      * destruct (negb (mode_eqb (mode x1) invalid)).
        -- apply argument_ensures; [ apply Incl; lia | exact H1 ].
        -- apply ensures_ret. exact H1.
      * intros x2 c2 H2. apply IH; [ | exact H2 ].
        intros j Hj. apply Incl. lia.
Qed.

Lemma callArguments_ensures (sig : Signature) (Args : list ast.Expr)
    (passSlice : bool) (x : operand) (c : checker) :
  (forall j,
     0 <= j < consideredArguments sig Args
                (fst (check_expr x (hd (ast.Other 0 0) Args) c)) ->
     forall kd, argumentReports sig j kd = true -> allowed kd = true) ->
  P c -> ensures (callArguments sig Args passSlice x) c P.
Proof.
  intros Incl H. unfold callArguments.
  assert (Loop : consideredArguments sig Args
                   (fst (check_expr x (hd (ast.Other 0 0) Args) c))
                 = Z.of_nat (List.length Args) ->
                 ensures
                   (x' <- rangeArgs sig passSlice (Z.of_nat (List.length Args)) 0 Args x ;;
                    ret (Z.of_nat (List.length Args), x')) c P).
  { intros E. rewrite E in Incl. apply ensures_bind.
    - apply rangeArgs_ensures; [ exact Incl | exact H ].
    - intros x1 c1 H1. apply ensures_ret. exact H1. }
  destruct Args as [ | arg [ | arg' rest]]; try (apply Loop; reflexivity).
  clear Loop. cbn [hd consideredArguments] in Incl.
  destruct (check_expr x arg c) as [xa ca] eqn:Ev. cbn [fst] in Incl.
  pose proof (keeps_expr _ (frame_keeps _ _ F) x arg c H) as Ha.
  rewrite Ev in Ha. cbn [snd] in Ha.
  intros r c' E. rewrite (bind_Done _ _ _ _ _ (lift_Done _ _ _ _ Ev)) in E.
  destruct (mode_eqb (mode xa) invalid); cbn [negb] in E.
  - unfold ret in E. injection E as _ <-. exact Ha.
  - assert (Single : forall T, typ xa = T -> (forall t, T <> Tuple t) ->
              ensures (x' <- argument sig 0 xa passSlice ;;
                       ret (Z.of_nat (List.length [arg]), x')) ca P).
    { intros T ET NotTuple. apply ensures_bind.
      - apply argument_ensures; [ | exact Ha ].
        apply Incl. rewrite ET. destruct T; try lia.
        exfalso. exact (NotTuple vars eq_refl).
      - intros x1 c1 H1. apply ensures_ret. exact H1. }
    destruct (typ xa) eqn:T;
      try (refine (Single _ eq_refl _ r c' E); intros ?; discriminate).
    clear Single. revert r c' E. apply ensures_bind.
    + apply forComponents_ensures; [ | exact Ha ].
      intros j Hj. apply Incl. pose proof (Len_nonneg vars). lia.
    + intros x1 c1 H1. apply ensures_ret. exact H1.
Qed.

Lemma callArity_ensures (sig : Signature) (Fun : ast.Expr) (n : Z) (c : checker) :
  allowed TooFewArguments = true -> P c -> ensures (callArity sig Fun n) c P.
Proof.
  intros Ok H. unfold callArity.
  destruct ((if isVariadic sig then n + 1 else n) <? Len (params sig)).
  - apply ensures_report; assumption.
  - apply ensures_ret. exact H.
Qed.

Lemma callChecked_ensures (sig : Signature) (Fun : ast.Expr) (Args : list ast.Expr)
    (Ellipsis : token.Pos) (passSlice : bool) (x : operand) (c : checker) :
  allowed TooFewArguments = true ->
  (forall j,
     0 <= j < consideredArguments sig Args
                (fst (check_expr x (hd (ast.Other 0 0) Args) c)) ->
     forall kd, argumentReports sig j kd = true -> allowed kd = true) ->
  P c -> ensures (callChecked sig Fun Args Ellipsis passSlice x) c P.
Proof.
  intros Ok Incl H. unfold callChecked. apply ensures_bind.
  - apply callArguments_ensures; assumption.
  - intros [n x1] c1 H1. apply ensures_bind.
    + apply callArity_ensures; assumption.
    + intros _ c2 H2. apply ensures_ret. exact H2.
Qed.

Lemma exprEach_ensures (args : list ast.Expr) :
  forall (x : operand) (c : checker), P c -> ensures (exprEach args x) c P.
Proof.
  induction args as [ | arg rest IH]; intros x c H; cbn [exprEach].
  - apply ensures_ret. exact H.
  - apply ensures_bind.
    + apply ensures_lift. apply (keeps_expr _ (frame_keeps _ _ F)). exact H.
    + intros x1 c1 H1. apply IH. exact H1.
Qed.

End FrameRules.


Section FrameTheorems.
Context {K : Collaborators}.

Lemma argumentReports_call (sig : Signature) (j : Z) (kd : ErrorKind) :
  argumentReports sig j kd = true -> callReports kd = true.
Proof.
  unfold argumentReports.
  destruct (negb (isVariadic sig) && (Len (params sig) <=? j));
    destruct kd; cbn; congruence.
Qed.

Lemma argumentReports_within (sig : Signature) (j : Z) (kd : ErrorKind) :
  isVariadic sig = true \/ j < Len (params sig) ->
  argumentReports sig j kd = true -> callReportsWithin kd = true.
Proof.
  intros H. unfold argumentReports.
  assert (E : negb (isVariadic sig) && (Len (params sig) <=? j) = false).
  { destruct H as [-> | H]; [ reflexivity | ].
    apply andb_false_iff. right. apply Z.leb_gt. exact H. }
  rewrite E. destruct kd; cbn; congruence.
Qed.

Lemma call_ensures (P : checker -> Prop) (x : operand) (Fun : ast.Expr)
    (Args : list ast.Expr) (Ellipsis : token.Pos) (c : checker) :
  Frame callReports P -> P c -> ensures (call x Fun Args Ellipsis) c P.
Proof.
  intros F H. unfold call. apply ensures_bind.
  - apply ensures_lift. apply (keeps_exprOrType _ (frame_keeps _ _ F)). exact H.
  - intros xf cf Hf. destruct (mode_eqb (mode xf) invalid).
    + apply ensures_bind.
      * apply (exprEach_ensures callReports P F). exact Hf.
      * intros x1 c1 H1. apply ensures_ret. exact H1.
    + destruct (mode_eqb (mode xf) typexpr).
      * apply ensures_lift. apply (keeps_conversion _ (frame_keeps _ _ F)). exact Hf.
      * assert (Other :
          ensures
            match typ xf with
            | Builtin bin =>
                lift (check_builtin xf (ast.CallExpr Fun Args Ellipsis) bin)
            | _ => invalidOp (pos xf) NotCallable [AOperand xf] ;;;
                   ret (set_expr (set_mode xf invalid) (ast.CallExpr Fun Args Ellipsis))
            end cf P).
        { destruct (typ xf);
            try (apply (ensures_report_ret callReports P F); [ reflexivity | exact Hf ]).
          apply ensures_lift. apply (keeps_builtin _ (frame_keeps _ _ F)). exact Hf. }
        destruct (Underlying (typ xf)); try exact Other. clear Other.
        unfold callSignature. apply ensures_bind.
        -- unfold callEllipsis. destruct (token.IsValid Ellipsis);
             [ destruct (isVariadic sig) | ]; try (apply ensures_ret; exact Hf).
           apply (ensures_report_ret callReports P F); [ reflexivity | exact Hf ].
        -- intros ps c0 H0. apply (callChecked_ensures callReports P F);
             [ reflexivity | | exact H0 ].
           intros j _ kd. apply argumentReports_call.
Qed.

(** X4.  [call] changes the checker only through its collaborators and
    through reports of its own seven kinds: a property of the checker that
    the collaborators keep, and that no report of those kinds breaks, holds
    after the call.  So [call] records no object and reports no selector
    diagnostic. *)
Theorem call_frame (P : checker -> Prop) (x : operand) (Fun : ast.Expr)
    (Args : list ast.Expr) (Ellipsis : token.Pos) (c : checker)
    (x' : operand) (c' : checker) :
  Frame callReports P ->
  P c ->
  call x Fun Args Ellipsis c = Done x' c' ->
  P c'.
Proof.
  intros F H E.
  pose proof (call_ensures P x Fun Args Ellipsis c F H) as Ens.
  exact (Ens x' c' E).
Qed.

(** No report of another kind puts a diagnostic of kind [k] in the sink. *)
Lemma lacks_reported (k : ErrorKind) (c : checker) (d : Diag) :
  kind_eqb (d_kind d) k = false -> lacks k c = true -> lacks k (reported c d) = true.
Proof.
  intros Ne H. unfold lacks in *. unfold reported. cbn [errors].
  rewrite forallb_app, H. cbn. rewrite Ne. reflexivity.
Qed.

(** X5.  When the collaborators report no [TooManyArguments], neither does
    a call of a variadic function, nor a call that considers no more
    positional arguments than the signature has parameters. *)
Theorem call_within_parameters (x : operand) (Fun : ast.Expr)
    (Args : list ast.Expr) (Ellipsis : token.Pos) (c : checker) (xf : operand)
    (cf : checker) (sig : Signature) (x' : operand) (c' : checker) :
  Keeps (fun c => lacks TooManyArguments c = true) ->
  calleeSignature x Fun c xf cf sig ->
  isVariadic sig = true
  \/ consideredArguments sig Args
       (fst (check_expr xf (hd (ast.Other 0 0) Args)
               (afterEllipsis sig Fun Ellipsis cf))) <= Len (params sig) ->
  lacks TooManyArguments cf = true ->
  call x Fun Args Ellipsis c = Done x' c' ->
  lacks TooManyArguments c' = true.
Proof.
  intros Kp Callee Within H E.
  assert (F : Frame callReportsWithin (fun c => lacks TooManyArguments c = true)).
  { split; [ exact Kp | ]. intros c0 d Ok H0. apply lacks_reported; [ | exact H0 ].
    unfold callReportsWithin in Ok. apply andb_true_iff in Ok.
    destruct Ok as [_ Ok]. apply negb_true_iff in Ok. exact Ok. }
  rewrite (call_callee _ _ _ _ _ _ _ _ Callee) in E.
  revert x' c' E.
  apply (callChecked_ensures callReportsWithin _ F); [ reflexivity | | ].
  - intros j Hj kd. apply argumentReports_within.
    destruct Within as [V | Le]; [ left; exact V | right; lia ].
  - unfold afterEllipsis.
    destruct (token.IsValid Ellipsis && negb (isVariadic sig)); [ | exact H ].
    apply lacks_reported; [ reflexivity | exact H ].
Qed.

Lemma get_checker_ensures (P : checker -> Prop) (c : checker) :
  P c -> ensures get_checker c P.
Proof. intros H a c' E. unfold get_checker in E. injection E as _ <-. exact H. Qed.

Lemma Error_ensures (P : checker -> Prop) (e : ast.Expr) (x : operand) (c : checker) :
  P c -> ensures (Error e x) c P.
Proof. apply ensures_ret. Qed.

Lemma selector_ensures (P : checker -> Prop) (x : operand) (X Sel : ast.Expr)
    (c : checker) :
  Frame selectorReports P -> Records P -> P c -> ensures (selector x X Sel) c P.
Proof.
  intros F R H.
  assert (Rep : forall k args p inv (a : operand) c0,
            selectorReports k = true -> P c0 ->
            ensures (report {| d_pos := p; d_invalidOp := inv; d_kind := k;
                               d_args := args |} ;;; Error (ast.SelectorExpr X Sel) a)
              c0 P).
  { intros k args p inv a c0 Ok H0.
    apply (ensures_report_ret selectorReports P F); assumption. }
  unfold selector. apply ensures_bind; [ apply get_checker_ensures; exact H | ].
  intros c0 c1 H1. destruct (qualifier c0 X) as [[pkg_ scope] | ].
  - unfold qualifiedIdent. apply ensures_bind;
      [ apply ensures_recordObject; assumption | ].
    intros _ c2 H2. destruct (Lookup scope (ast.Name Sel)) as [exp | ].
    + destruct (negb (IsExported (Object_Name exp))).
      * apply Rep; [ reflexivity | exact H2 ].
      * apply ensures_bind; [ apply ensures_recordObject; assumption | ].
        intros _ c3 H3.
        destruct exp; try (apply ensures_ret; exact H3). apply ensures_panic.
    + apply Rep; [ reflexivity | exact H2 ].
  - unfold selectorExpr. apply ensures_bind.
    + apply ensures_lift. apply (keeps_exprOrType _ (frame_keeps _ _ F)). exact H1.
    + intros xb cb Hb. destruct (mode_eqb (mode xb) invalid).
      * apply Error_ensures. exact Hb.
      * apply ensures_bind; [ apply get_checker_ensures; exact Hb | ].
        intros c2 c3 H3.
        destruct (LookupFieldOrMethod (typ xb) (pkg c2) (ast.Name Sel))
          as [[[obj | ] path] indirect].
        -- apply ensures_bind; [ apply ensures_recordObject; assumption | ].
           intros _ c4 H4. destruct (mode_eqb (mode xb) typexpr).
           ++ unfold methodExpr. destruct obj;
                try (apply Rep; [ reflexivity | exact H4 ]).
              destruct (negb indirect && ptrRecv (Func name typ0)).
              ** apply Rep; [ reflexivity | exact H4 ].
              ** destruct typ0; try apply ensures_panic.
                 apply ensures_bind; [ apply get_checker_ensures; exact H4 | ].
                 intros c5 c6 H6. apply ensures_ret. exact H6.
           ++ unfold regularSelector. destruct obj; try apply ensures_panic.
              ** apply ensures_ret. exact H4.
              ** destruct (negb indirect && negb (mode_eqb (mode xb) variable)
                           && ptrRecv (Func name typ0)).
                 --- apply Rep; [ reflexivity | exact H4 ].
                 --- apply ensures_bind; [ apply get_checker_ensures; exact H4 | ].
                     intros c5 c6 H6.
                     destruct (debug && negb (methodSetAgrees (methodSetType xb)
                                                 (pkg c5) (ast.Name Sel) (Func name typ0)));
                       [ apply ensures_panic | apply ensures_ret; exact H6 ].
        -- apply ensures_bind.
           ++ destruct path; unfold invalidOp;
                (apply (ensures_report selectorReports P F); [ reflexivity | exact H3 ]).
           ++ intros _ c4 H4. apply Error_ensures. exact H4.
Qed.

(** X6.  [selector] changes the checker only through the evaluation of its
    base, through recordings, and through reports of its own six kinds: a
    property of the checker that these keep holds after the selector.  So
    [selector] reports no call diagnostic. *)
Theorem selector_frame (P : checker -> Prop) (x : operand) (X Sel : ast.Expr)
    (c : checker) (x' : operand) (c' : checker) :
  Frame selectorReports P ->
  Records P ->
  P c ->
  selector x X Sel c = Done x' c' ->
  P c'.
Proof.
  intros F R H E.
  pose proof (selector_ensures P x X Sel c F R H) as Ens.
  exact (Ens x' c' E).
Qed.

Lemma extends_refl (c : checker) : extends c c.
Proof.
  repeat split; [ exists [] | exists [] ]; rewrite app_nil_r; reflexivity.
Qed.

Lemma extends_trans (a b c : checker) : extends a b -> extends b c -> extends a c.
Proof.
  intros (P1 & S1 & (d1 & E1) & (o1 & O1)) (P2 & S2 & (d2 & E2) & (o2 & O2)).
  repeat split; [ congruence | congruence | exists (d1 ++ d2) | exists (o1 ++ o2) ].
  - rewrite E2, E1, app_assoc. reflexivity.
  - rewrite O2, O1, app_assoc. reflexivity.
Qed.

Lemma extends_reported (c : checker) (d : Diag) : extends c (reported c d).
Proof.
  repeat split; [ exists [d] | exists [] ]; cbn; [ | rewrite app_nil_r ]; reflexivity.
Qed.

Lemma extends_recorded (c : checker) (id : ast.Expr) (obj : Object) :
  extends c (recorded c id obj).
Proof.
  repeat split; [ exists [] | exists [(id, obj)] ]; cbn; [ rewrite app_nil_r | ];
    reflexivity.
Qed.

Lemma Growing_Frame (allowed : ErrorKind -> bool) (c0 : checker) :
  Growing -> Frame allowed (extends c0).
Proof.
  intros G. split; [ split | ]; intros.
  - eapply extends_trans; [ eassumption | apply (growing_exprOrType G) ].
  - eapply extends_trans; [ eassumption | apply (growing_expr G) ].
  - eapply extends_trans; [ eassumption | apply (growing_conversion G) ].
  - eapply extends_trans; [ eassumption | apply (growing_builtin G) ].
  - eapply extends_trans; [ eassumption | apply (growing_assignment G) ].
  - eapply extends_trans; [ eassumption | apply extends_reported ].
Qed.

(** X7.  When the collaborators only add diagnostics and recorded objects,
    so do [call] and [selector]: the checker they return has the package and
    the scope it had, every diagnostic and every recorded object it had, in
    their order, and the new ones after them. *)
Theorem checker_grows (x : operand) (e1 e2 : ast.Expr) (Args : list ast.Expr)
    (Ellipsis : token.Pos) (c : checker) (x' : operand) (c' : checker) :
  Growing ->
  (call x e1 Args Ellipsis c = Done x' c' -> extends c c')
  /\ (selector x e1 e2 c = Done x' c' -> extends c c').
Proof.
  intros G. split; intros E.
  - exact (call_ensures (extends c) x e1 Args Ellipsis c
             (Growing_Frame callReports c G) (extends_refl c) x' c' E).
  - refine (selector_ensures (extends c) x e1 e2 c
              (Growing_Frame selectorReports c G) _ (extends_refl c) x' c' E).
    intros c0 id obj H. eapply extends_trans; [ exact H | apply extends_recorded ].
Qed.

End FrameTheorems.

(* ===================================================================== *)
(** ** More of the argument matcher                                       *)
(* ===================================================================== *)

Section ArgumentPaths.
Context {K : Collaborators}.

(** X8.  Without spread, an argument at a parameter that is not the
    variadic one is assigned to the declared type of that parameter. *)
Theorem argument_fixed_parameter (sig : Signature) (i : Z) (x : operand)
    (c : checker) (v : Var) :
  index (params sig) i = Some v ->
  isVariadic sig = false \/ i < Len (params sig) - 1 ->
  argument sig i x false c = assign x (Var_typ v) c.
Proof.
  intros Hv Fixed. pose proof (index_Some_range _ _ _ Hv) as Hi.
  fold (Len (params sig)) in Hi. unfold argument.
  assert (Lt : (i <? Len (params sig)) = true) by (apply Z.ltb_lt; lia).
  rewrite Lt, Hv.
  assert (E : isVariadic sig && (i >=? Len (params sig) - 1) = false).
  { destruct Fixed as [-> | Before]; [ reflexivity | ].
    apply andb_false_iff. right.
    destruct (i >=? Len (params sig) - 1) eqn:G; [ | reflexivity ].
    apply Z.geb_le in G. lia. }
  rewrite E. reflexivity.
Qed.

Lemma returns_Panic {A : Type} (m : M A) (c : checker) (msg : string) :
  m c = Panic msg -> returns m c -> False.
Proof. intros E (a & c' & E'). congruence. Qed.

(** X9.  At or after the variadic slot of a variadic signature, an argument
    without spread is checked without a panic exactly when the signature
    keeps its invariant: it has a last parameter and that parameter is a
    slice. *)
Theorem argument_returns_iff (sig : Signature) (i : Z) (x : operand) (c : checker) :
  isVariadic sig = true ->
  0 <= i ->
  Len (params sig) - 1 <= i ->
  (returns (argument sig i x false) c <-> wfSignature sig = true).
Proof.
  intros V Hi Slot. split; [ | intros WF; apply argument_returns; assumption ].
  intros R. unfold wfSignature. rewrite V.
  destruct (index (params sig) (Len (params sig) - 1)) as [v | ] eqn:Hv.
  - destruct (Var_typ v) eqn:T; try reflexivity; exfalso;
      refine (returns_Panic _ _ "interface conversion: Type is not *Slice" _ R);
      unfold argument;
      assert (G : (i >=? Len (params sig) - 1) = true) by (apply Z.geb_le; lia);
      rewrite V, G; cbn [andb];
      (destruct (i <? Len (params sig)) eqn:Lt;
       [ apply Z.ltb_lt in Lt; replace i with (Len (params sig) - 1) by lia | ]);
      rewrite Hv, T; reflexivity.
  - exfalso. refine (returns_Panic _ _ "index out of range" _ R).
    unfold argument. rewrite V.
    destruct (i <? Len (params sig)) eqn:Lt.
    + apply Z.ltb_lt in Lt. replace i with (Len (params sig) - 1) by lia.
      rewrite Hv. reflexivity.
    + rewrite Hv. reflexivity.
Qed.

End ArgumentPaths.

(* ===================================================================== *)
(** ** More of the selector resolver                                      *)
(* ===================================================================== *)

Section SelectorPaths.
Context {K : Collaborators}.

(** X10.  A method whose receiver is not a pointer is in every method set:
    the regular selector yields it as a value whether or not the base is
    addressable or the lookup went through an indirection, and the method
    expression is formed whether or not it did. *)
Theorem selector_value_receiver (x : operand) (X Sel : ast.Expr) (c : checker)
    (xb : operand) (cb : checker) (name : string) (ftyp : Type_)
    (path : option (list Z)) (indirect : bool) :
  resolves x X Sel c xb cb (Func name ftyp) path indirect ->
  ptrRecv (Func name ftyp) = false ->
  (mode xb <> typexpr ->
   debug && negb (methodSetAgrees (methodSetType xb) (pkg cb) (ast.Name Sel)
                    (Func name ftyp)) = false ->
   selector x X Sel c
   = Done {| mode := value; expr := Some (ast.SelectorExpr X Sel);
             typ := ftyp; val := val xb |}
          (recorded cb Sel (lookupResult (typ xb) (Func name ftyp) path indirect)))
  /\ (mode xb = typexpr -> forall sig, ftyp = SignatureT sig ->
      selector x X Sel c
      = Done {| mode := value; expr := Some (ast.SelectorExpr X Sel);
                typ := methodExprType cb (typ xb) sig; val := val xb |}
             (recorded cb Sel (lookupResult (typ xb) (Func name ftyp) path indirect))).
Proof.
  intros R Val. rewrite (selector_resolved _ _ _ _ _ _ _ _ _ R). split.
  - intros NotType Agree. apply mode_eqb_neq in NotType. rewrite NotType.
    unfold regularSelector. rewrite Val, andb_false_r.
    unfold bind at 1, get_checker at 1. cbn [pkg recorded]. rewrite Agree.
    reflexivity.
  - intros IsType sig ->. rewrite IsType. cbn [mode_eqb].
    unfold methodExpr. rewrite Val, andb_false_r. reflexivity.
Qed.

(** X12.  A package-qualified selector of a member that the package declares
    under an exported name records the package and the member, reports
    nothing, never evaluates its base, and classifies the member by its
    kind: constant with its value, type, variable, or function value.  A
    package found as member of a package stops the checker. *)
Theorem selector_qualified_member (x : operand) (X Sel : ast.Expr) (c : checker)
    (pkg_ : Object) (scope : Scope) (exp : Object) :
  qualifier c X = Some (pkg_, scope) ->
  Lookup scope (ast.Name Sel) = Some exp ->
  IsExported (ast.Name Sel) = true ->
  selector x X Sel c
  = match exp with
    | Const _ T v =>
        Done {| mode := constant; expr := Some (ast.SelectorExpr X Sel);
                typ := T; val := v |}
             (recorded (recorded c X pkg_) Sel exp)
    | TypeName _ T =>
        Done {| mode := typexpr; expr := Some (ast.SelectorExpr X Sel);
                typ := T; val := val x |}
             (recorded (recorded c X pkg_) Sel exp)
    | VarObj v =>
        Done {| mode := variable; expr := Some (ast.SelectorExpr X Sel);
                typ := Var_typ v; val := val x |}
             (recorded (recorded c X pkg_) Sel exp)
    | Func _ T =>
        Done {| mode := value; expr := Some (ast.SelectorExpr X Sel);
                typ := T; val := val x |}
             (recorded (recorded c X pkg_) Sel exp)
    | Package _ _ => Panic "unreachable"
    end.
Proof.
  intros Q Found Exported. rewrite (selector_qualified _ _ _ _ _ _ Q).
  unfold qualifiedIdent, bind at 1. cbn [recordObject].
  rewrite Found, (Lookup_name _ _ _ Found), Exported. cbn [negb].
  destruct exp; reflexivity.
Qed.

(** X14.  An ordinary selector whose base fails to evaluate yields an
    invalid operand and adds nothing to what the evaluation left.  One whose
    lookup finds no object reports [AmbiguousSelector] when the lookup
    hands back an index path and [NoSuchMember] when it hands back none, and
    records nothing. *)
Theorem selector_unresolved (x : operand) (X Sel : ast.Expr) (c : checker)
    (xb : operand) (cb : checker) :
  qualifier c X = None ->
  check_exprOrType x X c = (xb, cb) ->
  (mode xb = invalid ->
     selector x X Sel c = Done (invalidated xb (ast.SelectorExpr X Sel)) cb)
  /\ (mode xb <> invalid -> forall path indirect,
      LookupFieldOrMethod (typ xb) (pkg cb) (ast.Name Sel) = (None, path, indirect) ->
      selector x X Sel c
      = Done (invalidated xb (ast.SelectorExpr X Sel))
             (reported cb
                match path with
                | Some _ =>
                    {| d_pos := ast.Pos X; d_invalidOp := true;
                       d_kind := AmbiguousSelector;
                       d_args := [AString (ast.Name Sel)] |}
                | None =>
                    {| d_pos := ast.Pos X; d_invalidOp := true;
                       d_kind := NoSuchMember;
                       d_args := [AOperand xb; AString (ast.Name Sel)] |}
                end)).
Proof.
  intros Q Ev.
  assert (E : selector x X Sel c = selectorExpr x X Sel c).
  { unfold selector, bind, get_checker. rewrite Q. reflexivity. }
  rewrite E. unfold selectorExpr.
  rewrite (bind_Done _ _ _ _ _ (lift_Done _ _ _ _ Ev)). split.
  - intros ->. reflexivity.
  - intros Valid path indirect Missing. apply mode_eqb_neq in Valid.
    rewrite Valid. unfold bind at 1, get_checker at 1. rewrite Missing.
    destruct path; reflexivity.
Qed.

(** X15.  Once the lookup has found a member, the selector records it,
    whatever comes next, and then either yields a variable or a value
    without a diagnostic, or yields an invalid operand with exactly one
    diagnostic, [NoSuchMethod] or [NotInMethodSet]. *)
Theorem selector_resolved_outcome (x : operand) (X Sel : ast.Expr) (c : checker)
    (xb : operand) (cb : checker) (obj : Object) (path : option (list Z))
    (indirect : bool) (x' : operand) (c' : checker) :
  resolves x X Sel c xb cb obj path indirect ->
  selector x X Sel c = Done x' c' ->
  ((mode x' = variable \/ mode x' = value)
   /\ c' = recorded cb Sel (lookupResult (typ xb) obj path indirect))
  \/ (mode x' = invalid
      /\ exists d,
           c' = reported (recorded cb Sel (lookupResult (typ xb) obj path indirect)) d
           /\ d_invalidOp d = true
           /\ (d_kind d = NoSuchMethod \/ d_kind d = NotInMethodSet)).
Proof.
  intros R. rewrite (selector_resolved _ _ _ _ _ _ _ _ _ R).
  set (c1 := recorded cb Sel (lookupResult (typ xb) obj path indirect)).
  assert (Refused : forall k args,
            k = NoSuchMethod \/ k = NotInMethodSet ->
            (invalidOp (ast.Pos (ast.SelectorExpr X Sel)) k args ;;;
             Error (ast.SelectorExpr X Sel) xb) c1 = Done x' c' ->
            (mode x' = variable \/ mode x' = value) /\ c' = c1
            \/ mode x' = invalid
               /\ exists d, c' = reported c1 d /\ d_invalidOp d = true
                            /\ (d_kind d = NoSuchMethod \/ d_kind d = NotInMethodSet)).
  { intros k args Hk E. right. cbn in E. injection E as <- <-.
    split; [ reflexivity | ]. eexists. split; [ reflexivity | ].
    split; [ reflexivity | exact Hk ]. }
  destruct (mode_eqb (mode xb) typexpr).
  - unfold methodExpr. destruct obj; try (apply Refused; left; reflexivity).
    destruct (negb indirect && ptrRecv (Func name typ0));
      [ apply Refused; right; reflexivity | ].
    destruct typ0; try discriminate.
    intros E. cbn in E. injection E as <- <-. left. split; [ right | ]; reflexivity.
  - unfold regularSelector. destruct obj; try discriminate.
    + intros E. cbn in E. injection E as <- <-. left. split; [ left | ]; reflexivity.
    + destruct (negb indirect && negb (mode_eqb (mode xb) variable)
                && ptrRecv (Func name typ0));
        [ apply Refused; right; reflexivity | ].
      unfold bind at 1, get_checker at 1.
      destruct (debug && negb (methodSetAgrees (methodSetType xb) (pkg c1)
                                 (ast.Name Sel) (Func name typ0))); [ discriminate | ].
      intros E. cbn in E. injection E as <- <-. left. split; [ right | ]; reflexivity.
Qed.

(** X16.  Whatever path the selector takes, the operand it returns is
    labelled with the selector expression and never has mode [novalue]; a
    selector that is not package-qualified yields nothing but an invalid
    operand, a variable or a value. *)
Theorem selector_operand (x : operand) (X Sel : ast.Expr) (c : checker)
    (x' : operand) (c' : checker) :
  selector x X Sel c = Done x' c' ->
  expr x' = Some (ast.SelectorExpr X Sel)
  /\ mode x' <> novalue
  /\ (qualifier c X = None ->
      mode x' = invalid \/ mode x' = variable \/ mode x' = value).
Proof.
  intros E.
  unfold selector, selectorExpr, qualifiedIdent, methodExpr, regularSelector,
    Error, bind, lift, get_checker, ret, invalidOp, errorf, report,
    recordObject, panic in E.
  repeat match type of E with
         | context [match ?t with _ => _ end] => destruct t eqn:?
         end;
    try discriminate E;
    injection E as <- <-;
    (split; [ reflexivity | split; [ discriminate | ] ]);
    intros Q; try discriminate Q; cbn; auto.
Qed.

(** X13.  The selector returns, without a panic, when the debug cross-check
    is off, the member lookup hands back nothing but fields and methods of
    signature type, and the packages in scope declare no package. *)
Theorem selector_returns (x : operand) (X Sel : ast.Expr) (c : checker) :
  debug = false ->
  (forall T p name obj path indirect,
     LookupFieldOrMethod T p name = (Some obj, path, indirect) ->
     isMember obj = true) ->
  (forall pkg_ scope exp,
     qualifier c X = Some (pkg_, scope) ->
     Lookup scope (ast.Name Sel) = Some exp -> isPackage exp = false) ->
  returns (selector x X Sel) c.
Proof.
  intros Dbg Members Packages. unfold returns.
  unfold selector, selectorExpr, qualifiedIdent, methodExpr, regularSelector,
    Error, bind, lift, get_checker, ret, invalidOp, errorf, report,
    recordObject, panic.
  rewrite Dbg. cbn [andb].
  destruct (qualifier c X) as [[pkg_ scope] | ] eqn:Q.
  - destruct (Lookup scope (ast.Name Sel)) as [exp | ] eqn:L; [ | eauto ].
    specialize (Packages pkg_ scope exp eq_refl L).
    destruct (negb (IsExported (Object_Name exp))); [ eauto | ].
    destruct exp; try discriminate Packages; eauto.
  - destruct (check_exprOrType x X c) as [xb cb].
    destruct (mode_eqb (mode xb) invalid); [ eauto | ].
    destruct (LookupFieldOrMethod (typ xb) (pkg cb) (ast.Name Sel))
      as [[[obj | ] path] indirect] eqn:L.
    + specialize (Members _ _ _ _ _ _ L).
      destruct (mode_eqb (mode xb) typexpr).
      * destruct obj as [ | | v | name [ | | | | | sig | ] | ];
          try discriminate Members; eauto.
        destruct (negb indirect && ptrRecv (Func name (SignatureT sig))); eauto.
      * destruct obj as [ | | v | name ftyp | ]; try discriminate Members; eauto.
        destruct (negb indirect && negb (mode_eqb (mode xb) variable)
                  && ptrRecv (Func name ftyp)); eauto.
    + destruct path; eauto.
Qed.

End SelectorPaths.

(* ===================================================================== *)
(** ** Calling a method expression                                        *)
(* ===================================================================== *)

Section MethodExpressionCall.
Context {K : Collaborators}.

Lemma Len_cons (v : Var) (l : list Var) : Len (v :: l) = Len l + 1.
Proof. unfold Len. cbn [List.length]. lia. Qed.

Lemma index_cons_succ {A : Type} (a : A) (l : list A) (i : Z) :
  0 <= i -> index (a :: l) (i + 1) = index l i.
Proof.
  intros Hi. unfold index.
  destruct (i + 1 <? 0) eqn:E1; [ apply Z.ltb_lt in E1; lia | ].
  destruct (i <? 0) eqn:E2; [ apply Z.ltb_lt in E2; lia | ].
  replace (Z.to_nat (i + 1)) with (S (Z.to_nat i)) by lia. reflexivity.
Qed.

(** X11.  The type of a method expression is a signature that takes the
    receiver first: it keeps the invariant of the method's signature, an
    argument without spread at position 0 is assigned to the receiver type,
    and an argument at position [i + 1] is checked exactly as the method's
    signature checks an argument at position [i]. *)
Theorem methodExpr_arguments (c0 : checker) (T : Type_) (sig : Signature)
    (i : Z) (x : operand) (passSlice : bool) (c : checker) :
  wfSignature sig = true ->
  0 <= i ->
  methodExprType c0 T sig = SignatureT (methodExprSignature c0 T sig)
  /\ wfSignature (methodExprSignature c0 T sig) = true
  /\ argument (methodExprSignature c0 T sig) 0 x false c = assign x T c
  /\ argument (methodExprSignature c0 T sig) (i + 1) x passSlice c
     = argument sig i x passSlice c.
Proof.
  intros WF Hi.
  assert (Last : isVariadic sig = true ->
                 index (NewVar token.NoPos (pkg c0) "" T :: params sig)
                   (Len (params sig) + 1 - 1)
                 = index (params sig) (Len (params sig) - 1)
                 /\ 1 <= Len (params sig)).
  { intros V. destruct (wfSignature_variadic sig WF V) as (v & elt & Hv & _).
    pose proof (index_Some_range _ _ _ Hv) as R. fold (Len (params sig)) in R.
    split; [ | lia ].
    replace (Len (params sig) + 1 - 1) with (Len (params sig) - 1 + 1) by lia.
    apply index_cons_succ. lia. }
  split; [ reflexivity | split; [ | split ] ].
  - unfold wfSignature, methodExprSignature in *. cbn [isVariadic params].
    destruct (isVariadic sig) eqn:V; [ | reflexivity ].
    rewrite Len_cons. rewrite (proj1 (Last eq_refl)). exact WF.
  - unfold argument, methodExprSignature. cbn [isVariadic params].
    rewrite Len_cons. pose proof (Len_nonneg (params sig)) as N.
    assert (Lt : (0 <? Len (params sig) + 1) = true) by (apply Z.ltb_lt; lia).
    rewrite Lt. cbn [index Z.ltb Z.compare nth_error Z.to_nat Var_typ].
    assert (E : isVariadic sig && (0 >=? Len (params sig) + 1 - 1) = false).
    { destruct (isVariadic sig) eqn:V; [ | reflexivity ].
      destruct (Last eq_refl) as [_ One]. cbn [andb].
      destruct (0 >=? Len (params sig) + 1 - 1) eqn:G; [ | reflexivity ].
      apply Z.geb_le in G. lia. }
    rewrite E. reflexivity.
  - unfold argument, methodExprSignature. cbn [isVariadic params].
    rewrite Len_cons.
    replace (i + 1 <? Len (params sig) + 1) with (i <? Len (params sig))
      by (destruct (Z.ltb_spec i (Len (params sig)));
          destruct (Z.ltb_spec (i + 1) (Len (params sig) + 1)); lia || reflexivity).
    replace (i + 1 =? Len (params sig) + 1 - 1) with (i =? Len (params sig) - 1)
      by (destruct (Z.eqb_spec i (Len (params sig) - 1));
          destruct (Z.eqb_spec (i + 1) (Len (params sig) + 1 - 1)); lia || reflexivity).
    replace (i + 1 >=? Len (params sig) + 1 - 1) with (i >=? Len (params sig) - 1)
      by (rewrite !Z.geb_leb;
          destruct (Z.leb_spec (Len (params sig) - 1) i);
          destruct (Z.leb_spec (Len (params sig) + 1 - 1) (i + 1));
          lia || reflexivity).
    rewrite (index_cons_succ _ _ _ Hi).
    destruct (i <? Len (params sig)); [ reflexivity | ].
    destruct (isVariadic sig) eqn:V; [ | reflexivity ].
    rewrite (proj1 (Last eq_refl)). reflexivity.
Qed.

End MethodExpressionCall.

(* ===================================================================== *)
(** ** The sample package, checked further                                *)
(* ===================================================================== *)

Section SampleFurther.
Import sample.
#[local] Existing Instance collaborators.

(** The collaborators of the sample leave the checker as it is. *)
Lemma sample_quiet (P : checker -> Prop) : Keeps P.
Proof.
  split; cbn; intros; try assumption.
  - unfold eval. destruct (denotes e) as [[m t] | ]; assumption.
  - unfold eval. destruct (denotes e) as [[m t] | ]; assumption.
  - unfold assignment. destruct (mode_eqb (mode x) invalid); [ assumption | ].
    destruct (typ x); assumption.
Qed.

Lemma sample_growing : Growing.
Proof.
  split; cbn; intros; try apply extends_refl.
  - unfold eval. destruct (denotes e) as [[m t] | ]; apply extends_refl.
  - unfold eval. destruct (denotes e) as [[m t] | ]; apply extends_refl.
  - unfold assignment. destruct (mode_eqb (mode x) invalid); [ apply extends_refl | ].
    destruct (typ x); apply extends_refl.
Qed.

Lemma sample_members (t : Type_) (p : PkgId) (name : string) (obj : Object)
    (path : option (list Z)) (indirect : bool) :
  LookupFieldOrMethod t p name = (Some obj, path, indirect) -> isMember obj = true.
Proof.
  cbn. unfold members.
  assert (Of : forall b,
            (if String.eqb name "M" then (Some M_, Some [0], b)
             else if String.eqb name "N" then (Some N_, Some [0], b)
             else if String.eqb name "x"
                  then (Some (VarObj (var "x" int_)), Some [0], b)
                  else (None, None, false)) = (Some obj, path, indirect) ->
            isMember obj = true).
  { intros b. destruct (String.eqb name "M"); [ intros [= <- _ _]; reflexivity | ].
    destruct (String.eqb name "N"); [ intros [= <- _ _]; reflexivity | ].
    destruct (String.eqb name "x"); [ intros [= <- _ _]; reflexivity | discriminate ]. }
  intros H.
  repeat match type of H with
         | context [match ?s with _ => _ end] =>
             first [ apply Of in H; exact H | destruct s; try discriminate H ]
         end.
Qed.

(** [undefined(1, "x")]: both arguments are evaluated, nothing is reported. *)
Lemma call_invalid_callee_witness :
  mode (evaluated (id "undefined")) = invalid
  /\ call x0 (id "undefined") [lit 1; lit 2] 0 check0
     = Done (invalidated (evaluated (lit 2))
               (ast.CallExpr (id "undefined") [lit 1; lit 2] 0)) check0.
Proof.
  split; [ reflexivity | ].
  exact (call_invalid_callee x0 (id "undefined") [lit 1; lit 2] 0 check0
           (evaluated (id "undefined")) check0 eq_refl eq_refl).
Defined.

(** [h()] lacks arguments; [f()] does, too: [f] has a fixed parameter. *)
Lemma call_no_arguments_witness :
  call x0 (id "h") [] 0 check0
  = Done (callResult h_sig (ast.CallExpr (id "h") [] 0) (evaluated (id "h")))
         (reported check0 (tooFewArguments (id "h")))
  /\ call x0 (id "f") [] 0 check0
     = Done (callResult f_sig (ast.CallExpr (id "f") [] 0) (evaluated (id "f")))
            (reported check0 (tooFewArguments (id "f"))).
Proof.
  split.
  - apply (proj2 (call_no_arguments x0 (id "h") 0 check0 (evaluated (id "h")) check0
                    h_sig h_callee)).
    left. cbn. lia.
  - apply (proj2 (call_no_arguments x0 (id "f") 0 check0 (evaluated (id "f")) check0
                    f_sig ltac:(repeat split))).
    left. cbn. lia.
Defined.

(** [h(1)]: the single argument is a value. *)
Lemma call_single_value_as_loop_witness :
  callArguments h_sig [lit 1] false (evaluated (id "h")) check0
  = (x' <- rangeArgs h_sig false 1 0 [lit 1] (evaluated (id "h")) ;; ret (1, x'))%checker
      check0
  /\ callArguments h_sig [lit 1] false (evaluated (id "h")) check0
     = (x' <- argument h_sig 0 (evaluated (lit 1)) false ;; ret (1, x'))%checker check0.
Proof.
  apply (call_single_value_as_loop h_sig (lit 1) false (evaluated (id "h")) check0
           (evaluated (lit 1)) check0).
  - reflexivity.
  - discriminate.
  - intros t. discriminate.
Defined.

Lemma ofMain_Frame (allowed : ErrorKind -> bool) : Frame allowed ofMain.
Proof. split; [ apply sample_quiet | intros c d _ H; exact H ]. Qed.

(** [h(1)] and [T.M] leave the checker in package [main]. *)
Lemma call_frame_witness :
  ofMain (checkerOf (call x0 (id "h") [lit 1] 0 check0)).
Proof.
  exact (call_frame ofMain x0 (id "h") [lit 1] 0 check0
           (operandOf (call x0 (id "h") [lit 1] 0 check0))
           (checkerOf (call x0 (id "h") [lit 1] 0 check0))
           (ofMain_Frame callReports) eq_refl eq_refl).
Defined.

Lemma selector_frame_witness :
  ofMain (checkerOf (selector x0 (id "T") (id "M") check0)).
Proof.
  refine (selector_frame ofMain x0 (id "T") (id "M") check0
            (operandOf (selector x0 (id "T") (id "M") check0))
            (checkerOf (selector x0 (id "T") (id "M") check0))
            (ofMain_Frame selectorReports) _ eq_refl eq_refl).
  intros c id obj H. exact H.
Defined.

(** [h(g())] considers two arguments for two parameters. *)
Lemma call_within_parameters_witness :
  consideredArguments h_sig [g_call] (evaluated g_call) <= Len (params h_sig)
  /\ lacks TooManyArguments check0 = true
  /\ lacks TooManyArguments (checkerOf (call x0 (id "h") [g_call] 0 check0)) = true.
Proof.
  split; [ cbn; lia | split; [ reflexivity | ] ].
  refine (call_within_parameters x0 (id "h") [g_call] 0 check0 (evaluated (id "h"))
            check0 h_sig (operandOf (call x0 (id "h") [g_call] 0 check0))
            (checkerOf (call x0 (id "h") [g_call] 0 check0))
            (sample_quiet _) h_callee _ eq_refl eq_refl).
  right. cbn. lia.
Defined.

(** [f(1, someSliceOfString)] and [mk().M] only add to the checker. *)
Lemma checker_grows_witness :
  extends check0 (checkerOf (call x0 (id "f") [lit 1; lit 3] 0 check0))
  /\ extends check0 (checkerOf (selector x0 mk_call (id "M") check0)).
Proof.
  split.
  - exact (proj1 (checker_grows x0 (id "f") (id "f") [lit 1; lit 3] 0 check0
                    (operandOf (call x0 (id "f") [lit 1; lit 3] 0 check0))
                    (checkerOf (call x0 (id "f") [lit 1; lit 3] 0 check0))
                    sample_growing) eq_refl).
  - exact (proj2 (checker_grows x0 mk_call (id "M") [] 0 check0
                    (operandOf (selector x0 mk_call (id "M") check0))
                    (checkerOf (selector x0 mk_call (id "M") check0))
                    sample_growing) eq_refl).
Defined.

(** The first argument of [f] and both arguments of [h]. *)
Lemma argument_fixed_parameter_witness :
  argument f_sig 0 (evaluated (lit 1)) false check0
  = assign (evaluated (lit 1)) int_ check0
  /\ argument h_sig 1 (evaluated (lit 2)) false check0
     = assign (evaluated (lit 2)) string_ check0.
Proof.
  split.
  - apply (argument_fixed_parameter f_sig 0 (evaluated (lit 1)) check0 (var "a" int_)
             eq_refl).
    right. cbn. lia.
  - apply (argument_fixed_parameter h_sig 1 (evaluated (lit 2)) check0
             (var "b" string_) eq_refl).
    left. reflexivity.
Defined.

(** [f] keeps the invariant, so its variadic arguments are checked. *)
Lemma argument_returns_iff_witness :
  returns (argument f_sig 1 (evaluated (lit 2)) false) check0
  <-> wfSignature f_sig = true.
Proof.
  apply (argument_returns_iff f_sig 1 (evaluated (lit 2)) check0 eq_refl).
  - lia.
  - cbn. lia.
Defined.

Lemma mk_N_resolves :
  resolves x0 mk_call (id "N") check0 (evaluated mk_call) check0
    (Func "N" (SignatureT N_sig)) (Some [0]) false.
Proof. repeat split. Qed.

Lemma T_N_resolves :
  resolves x0 (id "T") (id "N") check0 (evaluated (id "T")) check0
    (Func "N" (SignatureT N_sig)) (Some [0]) false.
Proof. repeat split. Qed.

(** [mk().N] is a method value and [T.N] a function of a [T]. *)
Lemma selector_value_receiver_witness :
  ptrRecv N_ = false
  /\ selector x0 mk_call (id "N") check0
     = Done {| mode := value; expr := Some (ast.SelectorExpr mk_call (id "N"));
               typ := SignatureT N_sig; val := None |}
            (recorded check0 (id "N") N_)
  /\ selector x0 (id "T") (id "N") check0
     = Done {| mode := value; expr := Some (ast.SelectorExpr (id "T") (id "N"));
               typ := methodExprType check0 T N_sig; val := None |}
            (recorded check0 (id "N") N_).
Proof.
  split; [ reflexivity | split ].
  - apply (proj1 (selector_value_receiver x0 mk_call (id "N") check0
                    (evaluated mk_call) check0 "N"%string (SignatureT N_sig)
                    (Some [0]) false mk_N_resolves eq_refl)).
    + discriminate.
    + reflexivity.
  - apply (proj2 (selector_value_receiver x0 (id "T") (id "N") check0
                    (evaluated (id "T")) check0 "N"%string (SignatureT N_sig)
                    (Some [0]) false T_N_resolves eq_refl)).
    + reflexivity.
    + reflexivity.
Defined.

(** [( *T ).M] called with a receiver and an [int]. *)
Lemma methodExpr_arguments_witness :
  wfSignature M_sig = true
  /\ methodExprType check0 (Pointer T) M_sig
     = SignatureT (methodExprSignature check0 (Pointer T) M_sig)
  /\ wfSignature (methodExprSignature check0 (Pointer T) M_sig) = true
  /\ argument (methodExprSignature check0 (Pointer T) M_sig) 0
       (evaluated (id "v")) false check0
     = assign (evaluated (id "v")) (Pointer T) check0
  /\ argument (methodExprSignature check0 (Pointer T) M_sig) (0 + 1)
       (evaluated (lit 1)) false check0
     = argument M_sig 0 (evaluated (lit 1)) false check0.
Proof.
  split; [ reflexivity | ].
  pose proof (methodExpr_arguments check0 (Pointer T) M_sig 0 (evaluated (id "v"))
                false check0 eq_refl ltac:(lia)) as (Ty & WF & Receiver & _).
  pose proof (methodExpr_arguments check0 (Pointer T) M_sig 0 (evaluated (lit 1))
                false check0 eq_refl ltac:(lia)) as (_ & _ & _ & Shift).
  exact (conj Ty (conj WF (conj Receiver Shift))).
Defined.

(** [lib.Exported] is a function value. *)
Lemma selector_qualified_member_witness :
  IsExported "Exported"%string = true
  /\ selector x0 (id "lib") (id "Exported") check0
     = Done {| mode := value;
               expr := Some (ast.SelectorExpr (id "lib") (id "Exported"));
               typ := SignatureT h_sig; val := None |}
            (recorded (recorded check0 (id "lib") lib) (id "Exported")
               (Func "Exported" (SignatureT h_sig))).
Proof.
  split; [ reflexivity | ].
  exact (selector_qualified_member x0 (id "lib") (id "Exported") check0 lib lib_scope
           (Func "Exported" (SignatureT h_sig)) eq_refl eq_refl eq_refl).
Defined.

(** The selectors of the sample return. *)
Lemma selector_returns_witness :
  returns (selector x0 (id "lib") (id "hidden")) check0
  /\ returns (selector x0 mk_call (id "M")) check0.
Proof.
  split.
  - apply selector_returns; [ reflexivity | apply sample_members | ].
    intros pkg_ scope exp Q L. cbn in Q. injection Q as <- <-.
    cbn in L. injection L as <-. reflexivity.
  - apply selector_returns; [ reflexivity | apply sample_members | ].
    intros pkg_ scope exp Q. discriminate Q.
Defined.

(** [undefined.x] and [mk().y]. *)
Lemma selector_unresolved_witness :
  selector x0 (id "undefined") (id "x") check0
  = Done (invalidated (evaluated (id "undefined"))
            (ast.SelectorExpr (id "undefined") (id "x"))) check0
  /\ selector x0 mk_call (id "y") check0
     = Done (invalidated (evaluated mk_call) (ast.SelectorExpr mk_call (id "y")))
            (reported check0
               {| d_pos := ast.Pos mk_call; d_invalidOp := true;
                  d_kind := NoSuchMember;
                  d_args := [AOperand (evaluated mk_call); AString "y"] |}).
Proof.
  split.
  - apply (proj1 (selector_unresolved (K := collaborators) x0 (id "undefined") (id "x") check0
                    (evaluated (id "undefined")) check0 eq_refl eq_refl)).
    reflexivity.
  - apply (proj2 (selector_unresolved (K := collaborators) x0 mk_call (id "y") check0
                    (evaluated mk_call) check0 eq_refl eq_refl)
             ltac:(discriminate) None false).
    reflexivity.
Defined.

(** [T.M] is refused, with one diagnostic, after [M] was recorded. *)
Lemma selector_resolved_outcome_witness :
  ((mode (operandOf (selector x0 (id "T") (id "M") check0)) = variable
    \/ mode (operandOf (selector x0 (id "T") (id "M") check0)) = value)
   /\ checkerOf (selector x0 (id "T") (id "M") check0)
      = recorded check0 (id "M") M_)
  \/ (mode (operandOf (selector x0 (id "T") (id "M") check0)) = invalid
      /\ exists d,
           checkerOf (selector x0 (id "T") (id "M") check0)
           = reported (recorded check0 (id "M") M_) d
           /\ d_invalidOp d = true
           /\ (d_kind d = NoSuchMethod \/ d_kind d = NotInMethodSet)).
Proof.
  exact (selector_resolved_outcome x0 (id "T") (id "M") check0 (evaluated (id "T"))
           check0 M_ (Some [0]) false
           (operandOf (selector x0 (id "T") (id "M") check0))
           (checkerOf (selector x0 (id "T") (id "M") check0))
           T_M_resolves eq_refl).
Defined.

(** [lib.hidden] and [v.x]. *)
Lemma selector_operand_witness :
  expr (operandOf (selector x0 (id "v") (id "x") check0))
  = Some (ast.SelectorExpr (id "v") (id "x"))
  /\ mode (operandOf (selector x0 (id "v") (id "x") check0)) <> novalue
  /\ (qualifier check0 (id "v") = None ->
      mode (operandOf (selector x0 (id "v") (id "x") check0)) = invalid
      \/ mode (operandOf (selector x0 (id "v") (id "x") check0)) = variable
      \/ mode (operandOf (selector x0 (id "v") (id "x") check0)) = value).
Proof.
  exact (selector_operand x0 (id "v") (id "x") check0
           (operandOf (selector x0 (id "v") (id "x") check0))
           (checkerOf (selector x0 (id "v") (id "x") check0)) eq_refl).
Defined.

End SampleFurther.
